(** * zendriver.core.connection: request/response multiplexing over one socket

    A shallow embedding of [src/zendriver/core/connection.py]:
    - [Transaction.__call__] (resolution of a pending command),
    - [Connection.send] (id assignment, registration, error augmentation),
    - [Listener.listener_loop] and [Listener._cleanup_old_event_transactions],
    - [Connection._register_handlers] (domain reconciliation),
    - [Connection.remove_handlers].

    Python objects that are shared between the pending table and the caller
    awaiting them (the [Transaction] futures) live in an explicit heap
    ([c_heap]); the table [Connection.mapper] maps ids to heap references. *)

From Stdlib Require Import ZArith String Ascii List Sorted.
From stdpp Require Import base gmap list strings pretty.

Open Scope string_scope.
Local Set Warnings "-register-all".

(* ------------------------------------------------------------------ *)
(** ** JSON values as produced by [json.loads] *)

Inductive json :=
| JNull
| JBool (b : bool)
| JNum (z : Z)
| JStr (s : string)
| JArr (l : list json)
| JObj (kv : list (string * json)).

(** [d.get(k)] on a dict built by [json.loads]: with duplicated keys the last
    occurrence wins. *)
Fixpoint obj_get (k : string) (kv : list (string * json)) : option json :=
  match kv with
  | [] => None
  | (k', v) :: r =>
      match obj_get k r with
      | Some w => Some w
      | None => if String.eqb k k' then Some v else None
      end
  end.

(** [k in d] *)
Definition obj_has (k : string) (kv : list (string * json)) : bool :=
  match obj_get k kv with Some _ => true | None => false end.

(** Python truth value of a decoded JSON value. *)
Definition py_truthy (j : json) : bool :=
  match j with
  | JNull => false
  | JBool b => b
  | JNum z => negb (Z.eqb z 0)
  | JStr s => negb (String.eqb s "")
  | JArr l => negb (length l =? 0)%nat
  | JObj kv => negb (length kv =? 0)%nat
  end.

Definition nl : string := String (ascii_of_nat 10) EmptyString.

(** [repr] of a decoded JSON value (string escapes are not modelled). *)
Fixpoint py_repr (j : json) : string :=
  match j with
  | JNull => "None"
  | JBool true => "True"
  | JBool false => "False"
  | JNum z => pretty z
  | JStr s => "'" ++ s ++ "'"
  | JArr l => "[" ++ String.concat ", " (map py_repr l) ++ "]"
  | JObj kv =>
      "{" ++ String.concat ", "
                 (map (fun kv1 => "'" ++ fst kv1 ++ "': " ++ py_repr (snd kv1)) kv)
          ++ "}"
  end.

(** [str(x)] *)
Definition py_str (j : json) : string :=
  match j with JStr s => s | _ => py_repr j end.

(** A key of a Python dict with int keys matched by a decoded JSON value
    ([True == 1], [False == 0]; [None] and strings never match). *)
Definition int_key_of (j : json) : option Z :=
  match j with
  | JNum z => Some z
  | JBool b => Some (if b then 1 else 0)%Z
  | _ => None
  end.

(** [hash(j)] succeeds: lists and dicts are unhashable, so [j in d]
    raises [TypeError] for them. *)
Definition hashable (j : json) : bool :=
  match j with
  | JArr _ | JObj _ => false
  | _ => true
  end.

(* ------------------------------------------------------------------ *)
(** ** Exceptions *)

Inductive exn :=
| ProtocolException (message : option json) (code : option json)
| KeyError (key : string)
| TypeError
| AttributeError
| ValueError
| InvalidStateError
| CancelledError
| ConnectionClosedError
| ConnectionClosedOK
| OSError.

(** [ProtocolException(arg)]: a dict argument gives [message] and [code]
    by [.get]; anything else is joined with [str]. *)
Definition protocol_exception_of (arg : json) : exn :=
  match arg with
  | JObj e => ProtocolException (obj_get "message" e) (obj_get "code" e)
  | j => ProtocolException (Some (JStr (py_str j))) None
  end.

(* ------------------------------------------------------------------ *)
(** ** Command descriptors (the cdp generator objects) *)

(** Result of [gen.send(value)]: the generator returns ([StopIteration]),
    yields again, or raises. *)
Inductive gen_step :=
| GStop (v : json)
| GYield (req : json)
| GRaise (e : exn).

Record cdp_gen := {
  gen_method : string;
  gen_params : option json;       (* the "params" entry of the first yield *)
  gen_parse : json -> gen_step    (* what [send(result)] does *)
}.

(** Event objects built by [cdp.util.parse_json_event]. *)
Inductive evkey :=
| EvType (domain : string) (name : string)  (* an event class of a cdp domain module *)
| EvOther (name : string).                   (* any other registered key *)

Record event := { ev_type : evkey; ev_payload : json }.

Inductive pyval := VJson (j : json) | VEvent (e : event).

Inductive fut_state :=
| FPending
| FResult (v : pyval)
| FException (e : exn)
| FCancelled.

(** A [Transaction] object ([asyncio.Future] subclass).  [tx_gen] is [None]
    for an [EventTransaction], whose [__cdp_obj__] is [None].
    [tx_fed] lists the values sent into the generator (decode invocations). *)
Record tx := {
  tx_gen : option cdp_gen;
  tx_id : option Z;
  tx_fed : list json;
  tx_state : fut_state
}.

Definition tx_method (t : tx) : string :=
  match tx_gen t with Some g => gen_method g | None => "" end.

(** [self.method, *params = next(cdp_obj).values(); if params: params = params.pop()] *)
Definition tx_params (t : tx) : json :=
  match tx_gen t with
  | Some g => match gen_params g with Some p => p | None => JArr [] end
  | None => JArr []
  end.

Definition set_state (t : tx) (s : fut_state) : tx :=
  {| tx_gen := tx_gen t; tx_id := tx_id t; tx_fed := tx_fed t; tx_state := s |}.

Definition set_fed (t : tx) (f : list json) : tx :=
  {| tx_gen := tx_gen t; tx_id := tx_id t; tx_fed := f; tx_state := tx_state t |}.

Definition set_tx_id (t : tx) (i : Z) : tx :=
  {| tx_gen := tx_gen t; tx_id := Some i; tx_fed := tx_fed t; tx_state := tx_state t |}.

(** [Future.set_result] / [Future.set_exception]: [InvalidStateError] when
    the future is already done. *)
Definition fut_set (t : tx) (s : fut_state) : tx * option exn :=
  match tx_state t with
  | FPending => (set_state t s, None)
  | _ => (t, Some InvalidStateError)
  end.

Definition new_transaction (g : cdp_gen) : tx :=
  {| tx_gen := Some g; tx_id := None; tx_fed := []; tx_state := FPending |}.

Definition new_event_transaction (ev : event) : tx :=
  {| tx_gen := None; tx_id := None; tx_fed := []; tx_state := FResult (VEvent ev) |}.

(** [Transaction.__call__] applied to the keyword arguments [response] *)
Definition tx_call (t : tx) (response : list (string * json)) : tx * option exn :=
  if obj_has "error" response then
    match obj_get "error" response with
    | Some err => fut_set t (FException (protocol_exception_of err))
    | None => (t, None)
    end
  else
    match obj_get "result" response with
    | None => (t, Some (KeyError "result"))
    | Some r =>
        match tx_gen t with
        | None => (t, Some AttributeError)   (* None.send *)
        | Some g =>
            let t' := set_fed t (tx_fed t ++ [r]) in
            match gen_parse g r with
            | GStop v => fut_set t' (FResult (VJson v))
            | GYield _ =>
                (t', Some (ProtocolException
                             (Some (JStr ("could not parse the cdp response:" ++ nl
                                          ++ py_repr (JObj response))))
                             None))
            | GRaise e => (t', Some e)
            end
        end
    end.

(* ------------------------------------------------------------------ *)
(** ** Handlers and the handler registry *)

(** What running a handler's body does. *)
Inductive body_res := BReturn | BRaise (e : exn).

(** A registered callback.  [h_async] is [iscoroutinefunction(callback)];
    [h_accepts2] / [h_accepts1] say whether the call [callback(event,
    connection)] / [callback(event)] binds its arguments (otherwise the call
    raises [TypeError] at once); [h_truthy] is [bool(callback)]. *)
Record handler := {
  h_id : nat;
  h_truthy : bool;
  h_async : bool;
  h_accepts2 : bool;
  h_accepts1 : bool;
  h_body : body_res
}.

#[global] Instance evkey_eq_dec : EqDecision evkey.
Proof. solve_decision. Defined.

(** [Connection.handlers] (a [defaultdict(list)], insertion ordered),
    [Connection.enabled_domains], and the domains whose [enable] command
    has been written to the websocket, in order. *)
Record registry := {
  handlers : list (evkey * list handler);
  enabled_domains : list string;
  enable_sent : list string
}.

Fixpoint alookup (k : evkey) (hs : list (evkey * list handler)) : option (list handler) :=
  match hs with
  | [] => None
  | (k', l) :: r => if decide (k = k') then Some l else alookup k r
  end.

(** [dict.pop(k)] / [del d[k]]: keys are unique, the first entry goes. *)
Fixpoint apop (k : evkey) (hs : list (evkey * list handler)) : list (evkey * list handler) :=
  match hs with
  | [] => []
  | (k', l) :: r => if decide (k = k') then r else (k', l) :: apop k r
  end.

(** [d[k] = v] on an existing or new key. *)
Fixpoint aset (k : evkey) (v : list handler) (hs : list (evkey * list handler))
  : list (evkey * list handler) :=
  match hs with
  | [] => [(k, v)]
  | (k', l) :: r => if decide (k = k') then (k', v) :: r else (k', l) :: aset k v r
  end.

(* ------------------------------------------------------------------ *)
(** ** The connection state *)

Record conn := {
  c_open : bool;               (* [self.websocket is not None] *)
  c_heap : gmap nat tx;        (* the Transaction objects *)
  c_next_ref : nat;            (* next fresh object reference *)
  c_mapper : gmap Z nat;       (* [Connection.mapper]: id -> object *)
  c_count : Z;                 (* next value of [Connection.__count__] *)
  c_out : list json;           (* frames written to the websocket *)
  c_evq : list Z;              (* [Listener._event_transaction_ids] *)
  c_idle : bool;               (* [Listener.idle] is set *)
  c_reg : registry
}.

Definition set_idle (b : bool) (c : conn) : conn :=
  {| c_open := c_open c; c_heap := c_heap c; c_next_ref := c_next_ref c;
     c_mapper := c_mapper c; c_count := c_count c; c_out := c_out c;
     c_evq := c_evq c; c_idle := b; c_reg := c_reg c |}.

Definition set_mapper (m : gmap Z nat) (c : conn) : conn :=
  {| c_open := c_open c; c_heap := c_heap c; c_next_ref := c_next_ref c;
     c_mapper := m; c_count := c_count c; c_out := c_out c;
     c_evq := c_evq c; c_idle := c_idle c; c_reg := c_reg c |}.

Definition set_heap (h : gmap nat tx) (c : conn) : conn :=
  {| c_open := c_open c; c_heap := h; c_next_ref := c_next_ref c;
     c_mapper := c_mapper c; c_count := c_count c; c_out := c_out c;
     c_evq := c_evq c; c_idle := c_idle c; c_reg := c_reg c |}.

(** [if not self.mapper: self.__count__ = itertools.count(0)] followed by
    [next(self.__count__)]; shared by [Connection.send] and by the event
    branch of [Listener.listener_loop].  The check and the draw run with no
    suspension point in between, and the [_current_id_mutex] is never held
    across an [await], so the pair is atomic. *)
Definition next_id (c : conn) : Z :=
  if bool_decide (c_mapper c = ∅) then 0%Z else c_count c.

(** [Transaction.message] *)
Definition tx_message (t : tx) : json :=
  JObj [("method", JStr (tx_method t)); ("params", tx_params t);
        ("id", match tx_id t with Some i => JNum i | None => JNull end)].

(** The bookkeeping part of [Connection.send]: build the Transaction, draw
    its id, register it in [mapper], write its message.  Returns the object
    reference the caller then awaits. *)
Definition send_register (g : cdp_gen) (c : conn) : conn * nat :=
  let i := next_id c in
  let r := c_next_ref c in
  let t := set_tx_id (new_transaction g) i in
  ({| c_open := c_open c; c_heap := <[r := t]> (c_heap c); c_next_ref := S r;
      c_mapper := <[i := r]> (c_mapper c); c_count := (i + 1)%Z;
      c_out := c_out c ++ [tx_message t]; c_evq := c_evq c;
      c_idle := c_idle c; c_reg := c_reg c |}, r).

(** [e.message = e.message or ""; e.message += f"\ncommand:...\nparams:..."]
    in the [except ProtocolException] clause of [Connection.send].  A list
    message is extended by the characters; other non-string messages make
    [+=] raise [TypeError]. *)
Definition augment (t : tx) (e : exn) : exn :=
  match e with
  | ProtocolException m code =>
      let suffix := nl ++ "command:" ++ tx_method t ++ nl ++ "params:"
                    ++ py_str (tx_params t) in
      let m0 := match m with
                | Some j => if py_truthy j then j else JStr ""
                | None => JStr ""
                end in
      match m0 with
      | JStr s => ProtocolException (Some (JStr (s ++ suffix))) code
      | JArr l =>
          ProtocolException
            (Some (JArr (l ++ map (fun a => JStr (String a EmptyString))
                                   (list_ascii_of_string suffix)))) code
      | _ => TypeError
      end
  | e => e
  end.

(** What [return await tx] in [Connection.send] produces once the
    Transaction [r] is done ([None] while it is still pending). *)
Definition send_await (c : conn) (r : nat) : option (pyval + exn) :=
  match c_heap c !! r with
  | Some t =>
      match tx_state t with
      | FPending => None
      | FResult v => Some (inl v)
      | FException e => Some (inr (augment t e))
      | FCancelled => Some (inr CancelledError)
      end
  | None => None
  end.

(* ------------------------------------------------------------------ *)
(** ** Listener: event bookkeeping and cleanup *)

Definition MAX_EVENT_TRANSACTIONS : Z := 10000.
Definition CLEANUP_THRESHOLD : Z := 8000.

(** [deque.append] on a [deque(maxlen=n)]: a full deque drops its oldest
    element. *)
Definition deque_append (maxlen : Z) (x : Z) (q : list Z) : list Z :=
  if (Z.of_nat (length q) <? maxlen)%Z then q ++ [x] else tl q ++ [x].

(** The [for _ in range(num_to_remove)] loop: [popleft] and delete the id
    from [mapper] when present. *)
Fixpoint evict (n : nat) (q : list Z) (m : gmap Z nat) : list Z * gmap Z nat :=
  match n with
  | O => (q, m)
  | S n' =>
      match q with
      | [] => (q, m)
      | old_id :: q' => evict n' q' (delete old_id m)
      end
  end.

(** [Listener._cleanup_old_event_transactions] *)
Definition cleanup_old_event_transactions (q : list Z) (m : gmap Z nat)
  : list Z * gmap Z nat :=
  if (Z.of_nat (length q) <? CLEANUP_THRESHOLD)%Z then (q, m)
  else
    let num_to_remove := (Z.of_nat (length q) - CLEANUP_THRESHOLD / 2)%Z in
    if (num_to_remove <=? 0)%Z then (q, m)
    else evict (Z.to_nat num_to_remove) q m.

(** The recording part of the event branch of [listener_loop]: build the
    [EventTransaction], draw its id, insert it in [mapper], track the id,
    run the cleanup. *)
Definition event_insert (ev : event) (c : conn) : conn :=
  let i := next_id c in
  let r := c_next_ref c in
  let t := set_tx_id (new_event_transaction ev) i in
  let q := deque_append MAX_EVENT_TRANSACTIONS i (c_evq c) in
  let qm := cleanup_old_event_transactions q (<[i := r]> (c_mapper c)) in
  {| c_open := c_open c; c_heap := <[r := t]> (c_heap c); c_next_ref := S r;
     c_mapper := snd qm; c_count := (i + 1)%Z; c_out := c_out c;
     c_evq := fst qm; c_idle := c_idle c; c_reg := c_reg c |}.

(* ------------------------------------------------------------------ *)
(** ** Listener: handler dispatch *)

(** A task created by the loop: a coroutine [callback(event, connection)]
    (or [callback(event)]), whose handler is fixed when the loop calls it,
    or [asyncio.to_thread(run_callback)].  [run_callback] is a closure
    over the loop's variable [callback]: it calls whatever that variable
    holds when the worker thread runs.  The loop does not yield inside
    [for callback in callbacks], so no thread starts before the loop is
    over; [TThread fin] records [fin], the value [callback] has then (the
    thread is taken to start before the loop handles another event frame,
    which would bind [callback] again). *)
Inductive task :=
| TCoro (h : handler) (nargs : nat)
| TThread (fin : handler).




(** A coroutine handler that the loop cannot call with [(event,
    connection)] nor with [(event)]. *)
Definition uncallable (h : handler) : bool :=
  h_async h && negb (h_accepts2 h) && negb (h_accepts1 h).

(** The value of [callback] when [for callback in callbacks] stops: the
    handler whose call raised, or else the last one ([h0] is the value
    before the first element). *)
Fixpoint loop_end (h0 : handler) (cbs : list handler) : handler :=
  match cbs with
  | [] => h0
  | h :: rest => if uncallable h then h else loop_end h rest
  end.

(** The [for callback in callbacks] loop, with [fin] the value [callback]
    holds at its end: the tasks created, in order, and the exception that
    leaves the loop, if any.  For a coroutine function the call
    [callback(event, connection)] happens in the loop; its [TypeError] is
    retried as [callback(event)], whose own [TypeError] is logged by
    [logger.warning] and re-raised. *)
Fixpoint dispatch_with (fin : handler) (cbs : list handler) : list task * option exn :=
  match cbs with
  | [] => ([], None)
  | h :: rest =>
      let this :=
        if h_async h then
          if h_accepts2 h then inl (TCoro h 2)
          else if h_accepts1 h then inl (TCoro h 1)
          else inr TypeError
        else inl (TThread fin) in
      match this with
      | inr e => ([], Some e)
      | inl t => let '(ts, e) := dispatch_with fin rest in (t :: ts, e)
      end
  end.

Definition dispatch (cbs : list handler) : list task * option exn :=
  match cbs with
  | [] => ([], None)
  | h :: _ => dispatch_with (loop_end h cbs) cbs
  end.

(* ------------------------------------------------------------------ *)
(** ** Listener: one iteration of [listener_loop] *)

(** Outcome of a [websocket.recv()] under [asyncio.wait_for]. *)
Inductive recv_result :=
| RFrame (kv : list (string * json))  (* a frame; [json.loads] gives a dict *)
| RTimeout
| RCancelled
| RRaise (e : exn).                   (* the read raised [e] *)

Inductive loop_outcome :=
| LoopContinue             (* [continue] / next iteration *)
| LoopBreak                (* [break]: the task returns *)
| LoopRaise (e : exn).     (* the exception leaves [listener_loop] *)

Record loop_result := {
  lr_conn : conn;
  lr_spawned : list task;
  lr_outcome : loop_outcome
}.

(** Calling the object [r] found in [mapper] with the frame's keyword
    arguments ([tx(.. message)]). *)
Definition resolve_ref (c : conn) (r : nat) (kv : list (string * json)) : loop_result :=
  match c_heap c !! r with
  | Some t =>
      let '(t', e) := tx_call t kv in
      let c' := set_heap (<[r := t']> (c_heap c)) c in
      {| lr_conn := c'; lr_spawned := [];
         lr_outcome := match e with None => LoopContinue | Some e => LoopRaise e end |}
  | None => {| lr_conn := c; lr_spawned := []; lr_outcome := LoopContinue |}
  end.

Definition continue_with (c : conn) (ts : list task) : loop_result :=
  {| lr_conn := c; lr_spawned := ts; lr_outcome := LoopContinue |}.

(** One iteration of [Listener.listener_loop]; [parse_json_event] is the
    schema registry [cdp.util.parse_json_event] ([None] when it raises,
    which the loop logs before continuing). *)
Definition listener_step (parse_json_event : list (string * json) -> option event)
    (c : conn) (rr : recv_result) : loop_result :=
  if negb (c_open c) then
    {| lr_conn := c; lr_spawned := []; lr_outcome := LoopRaise ValueError |}
  else
    match rr with
    | RTimeout => continue_with (set_idle true c) []
    | RCancelled => {| lr_conn := c; lr_spawned := []; lr_outcome := LoopBreak |}
    | RRaise ConnectionClosedError =>
        {| lr_conn := c; lr_spawned := []; lr_outcome := LoopBreak |}
    | RRaise e => {| lr_conn := c; lr_spawned := []; lr_outcome := LoopRaise e |}
    | RFrame message =>
        let c := set_idle false c in
        match obj_get "id" message with
        | Some idj =>
            match int_key_of idj with
            | Some z =>
                match c_mapper c !! z with
                | Some r => resolve_ref (set_mapper (delete z (c_mapper c)) c) r message
                | None =>
                    if Z.eqb z (-2) then
                      match c_mapper c !! (-2)%Z with
                      | Some r => resolve_ref c r message
                      | None => continue_with c []
                      end
                    else continue_with c []
                end
            | None =>
                if hashable idj then continue_with c []
                else {| lr_conn := c; lr_spawned := []; lr_outcome := LoopRaise TypeError |}
            end
        | None =>
            match parse_json_event message with
            | None => continue_with c []
            | Some ev =>
                let c := event_insert ev c in
                match alookup (ev_type ev) (handlers (c_reg c)) with
                | None | Some [] => continue_with c []
                | Some callbacks =>
                    let '(ts, e) := dispatch callbacks in
                    {| lr_conn := c; lr_spawned := ts;
                       lr_outcome := match e with None => LoopContinue
                                                | Some e => LoopRaise e end |}
                end
            end
        end
    end.

(* ------------------------------------------------------------------ *)
(** ** Handler registration *)

Definition set_handlers (hs : list (evkey * list handler)) (r : registry) : registry :=
  {| handlers := hs; enabled_domains := enabled_domains r; enable_sent := enable_sent r |}.

Definition set_enabled (en : list string) (r : registry) : registry :=
  {| handlers := handlers r; enabled_domains := en; enable_sent := enable_sent r |}.

Definition set_sent (s : list string) (r : registry) : registry :=
  {| handlers := handlers r; enabled_domains := enabled_domains r; enable_sent := s |}.

Definition handlers_of (et : evkey) (hs : list (evkey * list handler)) : list handler :=
  match alookup et hs with Some l => l | None => [] end.

(** [Connection.add_handler] for an event type: [self.handlers[t].append(h)]. *)
Definition add_handler (et : evkey) (h : handler) (hs : list (evkey * list handler))
  : list (evkey * list handler) :=
  aset et (handlers_of et hs ++ [h]) hs.

(** [list.remove(h)]: the first element equal to [h] (identity). *)
Fixpoint remove_handler (h : handler) (l : list handler) : list handler :=
  match l with
  | [] => []
  | h' :: r => if (h_id h' =? h_id h)%nat then r else h' :: remove_handler h r
  end.

(** [Connection.remove_handlers(event_type, handler)].  The tests are
    Python truth tests; event types (classes) are always true. *)
Definition remove_handlers (event_type : option evkey) (handler_arg : option handler)
    (hs : list (evkey * list handler)) : list (evkey * list handler) * option exn :=
  let handler_given := match handler_arg with Some h => h_truthy h | None => false end in
  let event_given := match event_type with Some _ => true | None => false end in
  if handler_given && negb event_given then (hs, Some ValueError)
  else
    match event_type with
    | None => ([], None)                          (* self.handlers.clear() *)
    | Some et =>
        if negb handler_given then
          match alookup et hs with                (* del self.handlers[et] *)
          | Some _ => (apop et hs, None)
          | None => (hs, Some (KeyError "event_type"))
          end
        else
          match handler_arg with
          | None => (hs, None)
          | Some h =>
              (* the defaultdict lookup creates a missing key *)
              let hs1 := match alookup et hs with Some _ => hs | None => aset et [] hs end in
              let l := handlers_of et hs1 in
              if existsb (fun h' => (h_id h' =? h_id h)%nat) l
              then (aset et (remove_handler h l) hs1, None)
              else (hs1, None)
          end
    end.

(* ------------------------------------------------------------------ *)
(** ** Domain reconciliation: [Connection._register_handlers] *)

(** [cdp.target] and [cdp.storage], enabled by default. *)
Definition always_on : list string := ["target"; "storage"].

(** [util.cdp_get_module(event_type.__module__)] for an event class;
    [None] for keys that are not classes ([isinstance(event_type, type)]). *)
Definition dm_of (k : evkey) : option string :=
  match k with EvType d _ => Some d | EvOther _ => None end.

(** [list.remove(x)] where absence is tolerated. *)
Fixpoint remove_first (x : string) (l : list string) : list string :=
  match l with
  | [] => []
  | y :: r => if String.eqb x y then r else y :: remove_first x r
  end.

(** One iteration of [for event_type in self.handlers.copy()], on the
    registry and the local copy [enabled_domains] (here [saved]).
    [nested] is the [_register_handlers] call made by [aopen] inside
    [self.send(domain_mod.enable(), _is_update=True)]; [ok dm] is whether
    the awaited enable command returns normally.  Every exception of the
    [try] ends in the bare [except], which removes the domain again. *)
Definition reg_visit (nested : registry -> registry * option exn) (ok : string -> bool)
    (st : registry * list string) (event_type : evkey) : registry * list string :=
  let '(r, saved) := st in
  match alookup event_type (handlers r) with
  | None | Some [] => (set_handlers (apop event_type (handlers r)) r, saved)
  | Some _ =>
      match dm_of event_type with
      | None => (r, saved)
      | Some dm =>
          if decide (dm ∈ enabled_domains r) then
            (r, if decide (dm ∈ saved) then remove_first dm saved else saved)
          else if decide (dm ∈ always_on) then (r, saved)
          else
            let r1 := set_enabled (enabled_domains r ++ [dm]) r in
            match nested r1 with
            | (r2, Some _) =>
                (* aopen raised before the command was written *)
                (set_enabled (remove_first dm (enabled_domains r2)) r2, saved)
            | (r2, None) =>
                let r3 := set_sent (enable_sent r2 ++ [dm]) r2 in
                if ok dm then (r3, saved)
                else (set_enabled (remove_first dm (enabled_domains r3)) r3, saved)
            end
      end
  end.

(** [for ed in enabled_domains: self.enabled_domains.remove(ed)]:
    [list.remove] raises [ValueError] on a missing element. *)
Fixpoint sweep (saved : list string) (en : list string) : list string * option exn :=
  match saved with
  | [] => (en, None)
  | ed :: rest =>
      if decide (ed ∈ en) then sweep rest (remove_first ed en)
      else (en, Some ValueError)
  end.

(** [_register_handlers], with its re-entry through [send] / [aopen]
    bounded by [fuel]. *)
Fixpoint register_handlers (fuel : nat) (ok : string -> bool) (r : registry)
  : registry * option exn :=
  match fuel with
  | O => (r, None)
  | S f =>
      let '(r', saved) :=
        fold_left (reg_visit (register_handlers f ok) ok) (map fst (handlers r))
                  (r, enabled_domains r) in
      let '(en, e) := sweep saved (enabled_domains r') in
      (set_enabled en r', e)
  end.

(** Each re-entry enables a new domain that has a handler, so the nesting
    depth stays below the number of registry entries. *)
Definition reconcile (ok : string -> bool) (r : registry) : registry * option exn :=
  register_handlers (S (length (handlers r))) ok r.

(* ------------------------------------------------------------------ *)
(** ** Scenario helpers *)

Definition reg_empty : registry :=
  {| handlers := []; enabled_domains := []; enable_sent := [] |}.

(** A freshly opened connection with a new listener. *)
Definition conn_open (reg : registry) : conn :=
  {| c_open := true; c_heap := ∅; c_next_ref := 0; c_mapper := ∅; c_count := 0;
     c_out := []; c_evq := []; c_idle := false; c_reg := reg |}.

(** A command whose decode step returns the raw result. *)
Definition cmd_echo (m : string) : cdp_gen :=
  {| gen_method := m; gen_params := Some (JObj [("x", JNum 1)]);
     gen_parse := fun r => GStop r |}.

Definition no_events (kv : list (string * json)) : option event := None.

(** The message part of an augmented protocol error. *)
Definition message_text (m : option json) : string :=
  match m with Some (JStr s) => s | _ => "" end.

Definition augment_suffix (t : tx) : string :=
  nl ++ "command:" ++ tx_method t ++ nl ++ "params:" ++ py_str (tx_params t).

(* ================================================================== *)
(** * Id assignment *)

(** The operations of a connection that touch the id counter or the pending
    table: the id-drawing part of [Connection.send] (reset when [mapper] is
    empty, [next(self.__count__)], [mapper.update]), the recording of an
    event in [listener_loop] (same counter and reset, then the cleanup),
    [_send_oneshot] (fixed id -2, no draw) and the [mapper.pop] of a
    response frame. *)
Inductive id_op :=
  | OpSend (g : cdp_gen)
  | OpEvent (ev : event)
  | OpOneshot (g : cdp_gen)
  | OpAnswer (z : Z).

(** [_send_oneshot]: [tx.id = -2; self.mapper.update({tx.id: tx})] *)
Definition oneshot_register (g : cdp_gen) (c : conn) : conn :=
  let r := c_next_ref c in
  let t := set_tx_id (new_transaction g) (-2)%Z in
  {| c_open := c_open c; c_heap := <[r := t]> (c_heap c); c_next_ref := S r;
     c_mapper := <[(-2)%Z := r]> (c_mapper c); c_count := c_count c;
     c_out := c_out c ++ [tx_message t]; c_evq := c_evq c;
     c_idle := c_idle c; c_reg := c_reg c |}.

(** One operation: the new state, the id drawn (if the operation draws
    one) and whether [mapper] was empty when it was drawn. *)
Definition id_step (c : conn) (o : id_op) : conn * option (Z * bool) :=
  let drawn := Some (next_id c, bool_decide (c_mapper c = ∅)) in
  match o with
  | OpSend g => (fst (send_register g c), drawn)
  | OpEvent ev => (event_insert ev c, drawn)
  | OpOneshot g => (oneshot_register g c, None)
  | OpAnswer z => (set_mapper (delete z (c_mapper c)) c, None)
  end.

(** A run of operations: final state and the draws, in assignment order. *)
Fixpoint run_ids (c : conn) (os : list id_op) : conn * list (Z * bool) :=
  match os with
  | [] => (c, [])
  | o :: os' =>
      let '(c', d) := id_step c o in
      let '(c'', ds) := run_ids c' os' in
      (c'', match d with Some x => x :: ds | None => ds end)
  end.

(** Every id in the pending table is below the counter, which is not
    negative. *)
Definition ids_below (c : conn) : Prop :=
  (0 <= c_count c)%Z /\ forall k, is_Some (c_mapper c !! k) -> (k < c_count c)%Z.

(** Two sends while the table holds nothing else: the first is answered
    before the second draws its id. *)
Definition answered_then_send : list id_op :=
  [OpSend (cmd_echo "Page.enable"); OpAnswer 0; OpSend (cmd_echo "Runtime.enable")].

(* ------------------------------------------------------------------ *)
(** ** More scenario inputs *)

Definition boom_frame : list (string * json) :=
  [("id", JNum 0); ("error", JObj [("code", JNum 5); ("message", JStr "boom")])].

Definition ok_frame : list (string * json) :=
  [("id", JNum 0); ("result", JObj [("y", JNum 2)])].

(** A command whose decoder needs a [frameId] in the result (as the
    generated [from_json] parsers index the result dict). *)
Definition cmd_strict (m : string) : cdp_gen :=
  {| gen_method := m; gen_params := None;
     gen_parse := fun r =>
       match r with
       | JObj kv => if obj_has "frameId" kv then GStop r else GRaise (KeyError "frameId")
       | _ => GRaise TypeError
       end |}.

(** A command whose generator yields a second request instead of returning. *)
Definition cmd_two_step (m : string) : cdp_gen :=
  {| gen_method := m; gen_params := None;
     gen_parse := fun r => GYield (JObj [("method", JStr m)]) |}.

Definition bogus_frame : list (string * json) :=
  [("id", JNum 0); ("result", JObj [("bogus", JNum 1)])].

Definition plain_handler (n : nat) : handler :=
  {| h_id := n; h_truthy := true; h_async := false; h_accepts2 := true;
     h_accepts1 := true; h_body := BReturn |}.

(** A callable object whose [__len__] returns 0. *)
Definition falsy_handler (n : nat) : handler :=
  {| h_id := n; h_truthy := false; h_async := false; h_accepts2 := true;
     h_accepts1 := true; h_body := BReturn |}.

Definition one_handler_registry : list (evkey * list handler) :=
  add_handler (EvType "network" "RequestWillBeSent") (plain_handler 1) [].



Definition frame_navigated : evkey := EvType "page" "FrameNavigated".

Definition parse_page_events (kv : list (string * json)) : option event :=
  Some {| ev_type := frame_navigated; ev_payload := JObj kv |}.

Definition event_frame : list (string * json) :=
  [("method", JStr "Page.frameNavigated"); ("params", JObj [])].



(** [mapper] after deleting [ids] in order. *)
Definition delete_ids (ids : list Z) (m : gmap Z nat) : gmap Z nat :=
  fold_left (fun m x => delete x m) ids m.

(** The listener recording a sequence of events. *)
Definition insert_events (evs : list event) (c : conn) : conn :=
  fold_left (fun c ev => event_insert ev c) evs c.

(* ------------------------------------------------------------------ *)
(** ** Reconciliation: invariants and scenarios *)

(** [len(self.handlers[event_type]) != 0] *)
Definition nonemptyb (kl : evkey * list handler) : bool :=
  match kl.2 with [] => false | _ :: _ => true end.

(** Domain [d] has a handler: some event class of [d] has a non-empty
    handler list. *)
Definition needed (hs : list (evkey * list handler)) (d : string) : Prop :=
  exists k l, In (k, l) hs /\ l <> [] /\ dm_of k = Some d.

(** Every enabled domain still has a handler. *)
Definition consistent (r : registry) : Prop :=
  forall d, d ∈ enabled_domains r -> needed (handlers r) d.

(** [hs] is [hs0] with some empty handler lists removed (the pops of the
    loop); keys stay distinct. *)
Definition hs_rel (hs hs0 : list (evkey * list handler)) : Prop :=
  List.filter nonemptyb hs = List.filter nonemptyb hs0 /\ NoDup (map fst hs).

(** Number of occurrences of [d] in a list of domain names. *)
Definition occ (d : string) (l : list string) : nat :=
  length (List.filter (String.eqb d) l).

(** A non-empty handler entry whose domain is neither enabled nor on by
    default. *)
Definition pending_entry (en : list string) (kl : evkey * list handler) : bool :=
  match dm_of kl.1 with
  | Some d => nonemptyb kl && negb (bool_decide (d ∈ en))
              && negb (bool_decide (d ∈ always_on))
  | None => false
  end.

(** The number of such entries: it bounds the nesting depth. *)
Definition unenabled (r : registry) : nat :=
  length (List.filter (pending_entry (enabled_domains r)) (handlers r)).

(** Some event class of [d] with a non-empty list in [hs] is among the
    keys [ks] still to be visited. *)
Definition key_ahead (hs : list (evkey * list handler)) (ks : list evkey) (d : string) : Prop :=
  exists k l, k ∈ ks /\ In (k, l) hs /\ l <> [] /\ dm_of k = Some d.

(** What a reconciliation guarantees about its result [r'] and error [e]. *)
Definition reg_post (ok : string -> bool) (r r' : registry) (e : option exn) : Prop :=
  hs_rel (handlers r') (handlers r) /\
  NoDup (enabled_domains r') /\
  (forall d, d ∈ enabled_domains r -> needed (handlers r) d -> d ∈ enabled_domains r') /\
  (forall d, d ∈ enabled_domains r' -> needed (handlers r) d) /\
  exists new, enable_sent r' = (enable_sent r ++ new)%list /\
    (forall d, d ∈ enabled_domains r -> needed (handlers r) d -> occ d new = 0) /\
    (consistent r ->
       e = None /\
       (forall d, needed (handlers r) d -> d ∉ enabled_domains r -> d ∉ always_on ->
          ok d = true -> d ∈ enabled_domains r' /\ occ d new = 1) /\
       (forall d, ok d = false -> d ∉ enabled_domains r -> d ∉ enabled_domains r')).

(** The invariant of [for event_type in self.handlers.copy()] on the
    registry [r], the local copy [saved] and the enables [new] sent so
    far, with [ks] the keys still to visit. *)
Record loop_inv (ok : string -> bool) (r0 : registry) (ks : list evkey)
    (r : registry) (saved new : list string) : Prop := {
  li_hs : hs_rel (handlers r) (handlers r0);
  li_nodup : NoDup (enabled_domains r);
  li_keep : forall d, d ∈ enabled_domains r0 -> needed (handlers r0) d ->
              d ∈ enabled_domains r;
  li_same : enabled_domains r = enabled_domains r0 \/
            (forall d, d ∈ enabled_domains r -> needed (handlers r0) d);
  li_saved_nodup : NoDup saved;
  li_saved_sub : forall d, d ∈ saved -> d ∈ enabled_domains r0;
  li_saved_stale : forall d, d ∈ enabled_domains r0 -> needed (handlers r0) d \/ d ∈ saved;
  li_saved_ahead : forall d, d ∈ saved -> needed (handlers r0) d ->
                     key_ahead (handlers r0) ks d;
  li_sent : enable_sent r = (enable_sent r0 ++ new)%list;
  li_quiet : forall d, d ∈ enabled_domains r0 -> needed (handlers r0) d -> occ d new = 0;
  li_once : consistent r0 -> forall d, needed (handlers r0) d ->
              d ∉ enabled_domains r0 -> d ∉ always_on -> ok d = true ->
              (d ∈ enabled_domains r /\ occ d new = 1) \/
              ((d ∉ enabled_domains r) /\ occ d new = 0 /\ key_ahead (handlers r0) ks d);
  li_failed : consistent r0 -> forall d, ok d = false -> d ∉ enabled_domains r0 ->
                d ∉ enabled_domains r }.


(** A [cdp.page] event class. *)
Definition page_evt (n : string) : evkey := EvType "page" n.

(** Two handlers for two event types of [page]. *)
Definition two_page_registry : registry :=
  {| handlers := [(page_evt "FrameNavigated", [plain_handler 1]);
                  (page_evt "LoadEventFired", [plain_handler 2])];
     enabled_domains := []; enable_sent := [] |}.

(** One handler for a [target] event. *)
Definition target_registry : registry :=
  {| handlers := [(EvType "target" "TargetCreated", [plain_handler 1])];
     enabled_domains := []; enable_sent := [] |}.



(** A registry left by removing the last [runtime] handler, with a new
    [page] handler. *)
Definition stale_runtime_registry : registry :=
  {| handlers := [(page_evt "FrameNavigated", [plain_handler 1])];
     enabled_domains := ["runtime"]; enable_sent := ["runtime"] |}.


(** Every enable succeeds except [Page.enable]. *)
Definition page_fails (d : string) : bool := negb (String.eqb d "page").


(** A [cdp.page] event as the loop records it. *)
Definition nav_event : event :=
  {| ev_type := frame_navigated; ev_payload := JObj event_frame |}.

(** The listener after recording 7999 events on a fresh connection: one
    short of the cleanup threshold. *)
Definition cleanup_eve : conn :=
  insert_events (repeat nav_event (Z.to_nat 7999)) (conn_open reg_empty).

(* ------------------------------------------------------------------ *)
(** ** Transaction status and [_send_oneshot] *)

(** [Future.exception()]: the exception of a done future ([None] after a
    result); it raises [InvalidStateError] while the future is pending and
    [CancelledError] once it is cancelled. *)
Definition fut_exception (t : tx) : option exn + exn :=
  match tx_state t with
  | FPending => inr InvalidStateError
  | FResult _ => inl None
  | FException e => inl (Some e)
  | FCancelled => inr CancelledError
  end.

(** [Transaction.has_exception]: an exception object is true, and the bare
    [except] answers [True] when [exception()] raises. *)
Definition has_exception (t : tx) : bool :=
  match fut_exception t with
  | inl (Some _) => true
  | inl None => false
  | inr _ => true
  end.

(** [Future.done()] *)
Definition fut_done (t : tx) : bool :=
  match tx_state t with FPending => false | _ => true end.

(** The [success] field of [Transaction.__repr__]:
    [False if (self.done() and self.has_exception) else True]. *)
Definition repr_success (t : tx) : bool :=
  negb (fut_done t && has_exception t).

(** What [_send_oneshot] returns once its Transaction [r] is done:
    [return await tx], a [ProtocolException] being swallowed by
    [except ProtocolException: pass] (the call returns [None]). *)
Definition oneshot_await (c : conn) (r : nat) : option (option pyval + exn) :=
  match c_heap c !! r with
  | Some t =>
      match tx_state t with
      | FPending => None
      | FResult v => Some (inl (Some v))
      | FException (ProtocolException _ _) => Some (inl None)
      | FException e => Some (inr e)
      | FCancelled => Some (inr CancelledError)
      end
  | None => None
  end.

(** [ProtocolException.__str__]:
    [f"{self.message} [code: {self.code}]" if self.code else f"{self.message}"]. *)
Definition protocol_exception_str (e : exn) : option string :=
  let s o := match o with Some j => py_str j | None => "None" end in
  match e with
  | ProtocolException message code =>
      Some (match code with
            | Some cj => if py_truthy cj then s message ++ " [code: " ++ py_str cj ++ "]"
                         else s message
            | None => s message
            end)
  | _ => None
  end.

(* ------------------------------------------------------------------ *)
(** ** The loop over many reads, listener restarts and [aclose] *)

(** The [while True:] of [listener_loop] over a sequence of reads: the
    state when the reads run out or the loop ends. *)
Fixpoint listener_run (parse_json_event : list (string * json) -> option event)
    (c : conn) (rrs : list recv_result) : conn :=
  match rrs with
  | [] => c
  | rr :: rest =>
      let res := listener_step parse_json_event c rr in
      match lr_outcome res with
      | LoopContinue => listener_run parse_json_event (lr_conn res) rest
      | _ => lr_conn res
      end
  end.

Definition set_reg (reg : registry) (c : conn) : conn :=
  {| c_open := c_open c; c_heap := c_heap c; c_next_ref := c_next_ref c;
     c_mapper := c_mapper c; c_count := c_count c; c_out := c_out c;
     c_evq := c_evq c; c_idle := c_idle c; c_reg := reg |}.

Definition set_open (b : bool) (c : conn) : conn :=
  {| c_open := b; c_heap := c_heap c; c_next_ref := c_next_ref c;
     c_mapper := c_mapper c; c_count := c_count c; c_out := c_out c;
     c_evq := c_evq c; c_idle := c_idle c; c_reg := c_reg c |}.

(** [self.listener = Listener(self)]: a new listener has an empty
    [_event_transaction_ids] deque and an unset [idle] event; [mapper]
    belongs to the connection and is kept. *)
Definition new_listener (c : conn) : conn :=
  {| c_open := c_open c; c_heap := c_heap c; c_next_ref := c_next_ref c;
     c_mapper := c_mapper c; c_count := c_count c; c_out := c_out c;
     c_evq := []; c_idle := false; c_reg := c_reg c |}.

(** [Connection.aclose]; [running] is [self.listener and self.listener.running]. *)
Definition aclose (running : bool) (c : conn) : conn :=
  if c_open c then
    set_open false (if running then set_reg (set_enabled [] (c_reg c)) c else c)
  else c.

(** [Connection.aopen] when [websockets.connect] succeeds; [running] is
    [self.listener.running] for an open connection.  It ends with
    [await self._register_handlers()]. *)
Definition aopen (running : bool) (ok : string -> bool) (c : conn) : conn * option exn :=
  let c1 := if c_open c then (if running then c else new_listener c)
            else new_listener (set_open true c) in
  let '(reg, e) := reconcile ok (c_reg c1) in
  (set_reg reg c1, e).

(** Every object reference in [mapper] is below the next fresh one. *)
Definition refs_below (c : conn) : Prop :=
  forall k r, c_mapper c !! k = Some r -> r < c_next_ref c.

(* ------------------------------------------------------------------ *)
(** ** [add_handler] on a domain module *)

(** A member [(name, obj)] of [inspect.getmembers_static(module)]: the
    registry key [obj] stands for, whether [type(obj) is type] (an ordinary
    class statement) and whether [inspect.isbuiltin(obj)]. *)
Record member := {
  m_name : string;
  m_obj : evkey;
  m_type_is_type : bool;
  m_builtin : bool
}.

Definition ascii_upper (a : ascii) : bool :=
  (nat_of_ascii "A" <=? nat_of_ascii a)%nat && (nat_of_ascii a <=? nat_of_ascii "Z")%nat.

Definition ascii_lower (a : ascii) : bool :=
  (nat_of_ascii "a" <=? nat_of_ascii a)%nat && (nat_of_ascii a <=? nat_of_ascii "z")%nat.

(** [str.isupper()] on an ASCII string: some cased character, none lower case. *)
Definition py_isupper (s : string) : bool :=
  existsb (fun a => ascii_upper a || ascii_lower a) (list_ascii_of_string s) &&
  forallb (fun a => negb (ascii_lower a)) (list_ascii_of_string s).

(** The [for name, obj in ...] loop of [add_handler] for a module, in
    the order [getmembers_static] lists the members; [name[0]] on an empty
    name raises [IndexError], given as [None]. *)
Fixpoint add_handler_members (ms : list member) (h : handler)
    (hs : list (evkey * list handler)) : option (list (evkey * list handler)) :=
  match ms with
  | [] => Some hs
  | m :: rest =>
      if py_isupper (m_name m) then add_handler_members rest h hs
      else
        match m_name m with
        | EmptyString => None
        | String a _ =>
            if negb (ascii_upper a) then add_handler_members rest h hs
            else if m_type_is_type m then add_handler_members rest h hs
            else if m_builtin m then add_handler_members rest h hs
            else add_handler_members rest h (add_handler (m_obj m) h hs)
        end
  end.

(** The members the loop appends the handler for. *)
Definition member_taken (m : member) : bool :=
  negb (py_isupper (m_name m)) &&
  match m_name m with
  | EmptyString => false
  | String a _ => ascii_upper a && negb (m_type_is_type m) && negb (m_builtin m)
  end.

(* ------------------------------------------------------------------ *)
(** ** Predicates of the proofs below *)

Definition reg_count (h : handler) (l : list handler) : nat :=
  length (List.filter (fun h' => (h_id h' =? h_id h)%nat) l).

Definition unreferenced (r0 : nat) (t0 : tx) (c : conn) : Prop :=
  refs_below c /\ r0 < c_next_ref c /\ (forall k, c_mapper c !! k <> Some r0) /\
  c_heap c !! r0 = Some t0.

(** What a reconciliation may do to a registry: pop empty handler lists
    only, and send enables only for domains with a handler that are not on
    by default. *)
Definition n_rel (r r' : registry) : Prop :=
  hs_rel (handlers r') (handlers r) /\
  (forall kl, In kl (handlers r') -> In kl (handlers r)) /\
  exists new, enable_sent r' = (enable_sent r ++ new)%list /\
    forall d, d ∈ new -> needed (handlers r) d /\ d ∉ always_on.

(** The loop of [_register_handlers] with [ks] still to visit. *)
Definition visit_j (r0 : registry) (ks : list evkey) (r : registry) : Prop :=
  n_rel r0 r /\ forall k l, In (k, l) (handlers r) -> k ∉ ks -> l <> [].

(** A domain with a handler, not enabled and not on by default at the
    start of a reconciliation from [r0] has had an enable written, or has
    an event class still to visit among [ks]. *)
Definition tried_j (r0 : registry) (ks : list evkey) (r : registry) : Prop :=
  forall d, needed (handlers r0) d -> d ∉ enabled_domains r0 -> d ∉ always_on ->
    occ d (enable_sent r0) < occ d (enable_sent r) \/ key_ahead (handlers r0) ks d.

Definition seen_dom (hs0 : list (evkey * list handler)) (pre : list evkey) (d : string) : Prop :=
  exists k l, k ∈ pre /\ In (k, l) hs0 /\ l <> [] /\ dm_of k = Some d.

Record quiet_inv (r0 : registry) (pre : list evkey) (r : registry) (saved : list string) : Prop := {
  qi_hs : hs_rel (handlers r) (handlers r0);
  qi_en : enabled_domains r = enabled_domains r0;
  qi_sent : enable_sent r = enable_sent r0;
  qi_nodup : NoDup saved;
  qi_saved : forall d, d ∈ saved <-> d ∈ enabled_domains r0 /\ ~ seen_dom (handlers r0) pre d }.

Definition taken_for (k : evkey) (ms : list member) : nat :=
  List.length (List.filter (fun m => member_taken m && bool_decide (m_obj m = k)) ms).

Definition network_members : list member :=
  [ {| m_name := "RequestWillBeSent"; m_obj := EvType "network" "RequestWillBeSent";
       m_type_is_type := true; m_builtin := false |};
    {| m_name := "ResourceType"; m_obj := EvOther "network.ResourceType";
       m_type_is_type := false; m_builtin := false |};
    {| m_name := "T_JSON_DICT"; m_obj := EvOther "network.T_JSON_DICT";
       m_type_is_type := false; m_builtin := false |};
    {| m_name := "annotations"; m_obj := EvOther "network.annotations";
       m_type_is_type := false; m_builtin := false |} ].

(* ================================================================== *)
(** * Theorems *)

(** C1: a response frame with an error object fails its pending
    Transaction with a [ProtocolException] carrying the remote code and
    message, without feeding the decoder; the error that [send] raises is
    that exception with the command's method and params appended to its
    message. *)
Theorem error_frame_fails_transaction
    (parse : list (string * json) -> option event) (c : conn)
    (message : list (string * json)) (i : Z) (r : nat) (t : tx)
    (err : list (string * json)) :
  c_open c = true ->
  obj_get "id" message = Some (JNum i) ->
  c_mapper c !! i = Some r ->
  c_heap c !! r = Some t ->
  tx_state t = FPending ->
  obj_get "error" message = Some (JObj err) ->
  (obj_get "message" err = None \/ exists s, obj_get "message" err = Some (JStr s)) ->
  let lr := listener_step parse c (RFrame message) in
  lr_outcome lr = LoopContinue /\
  c_heap (lr_conn lr) !! r =
    Some {| tx_gen := tx_gen t; tx_id := tx_id t; tx_fed := tx_fed t;
            tx_state := FException (ProtocolException (obj_get "message" err)
                                                      (obj_get "code" err)) |} /\
  send_await (lr_conn lr) r =
    Some (inr (ProtocolException
                 (Some (JStr (message_text (obj_get "message" err) ++ augment_suffix t)))
                 (obj_get "code" err))).
Proof.
  intros Hopen Hid Hm Hh Hst Herr Hmsg lr.
  subst lr. unfold listener_step. rewrite Hopen. cbn -[tx_call].
  rewrite Hid. cbn -[tx_call]. rewrite Hm.
  unfold resolve_ref. cbn -[tx_call]. rewrite Hh.
  unfold tx_call. unfold obj_has. rewrite Herr. cbn.
  unfold fut_set. rewrite Hst. cbn.
  rewrite lookup_insert_eq. split; [reflexivity|]. split; [reflexivity|].
  unfold send_await. cbn. rewrite lookup_insert_eq. cbn.
  destruct Hmsg as [Hn | [s Hs]]; rewrite ?Hn, ?Hs; cbn.
  - reflexivity.
  - destruct (String.eqb s "") eqn:E; cbn.
    + apply String.eqb_eq in E. subst s. reflexivity.
    + reflexivity.
Qed.

Lemma error_frame_fails_transaction_witness :
  let c1 := fst (send_register (cmd_echo "Foo.bar") (conn_open reg_empty)) in
  let t := set_tx_id (new_transaction (cmd_echo "Foo.bar")) 0 in
  let lr := listener_step no_events c1 (RFrame boom_frame) in
  lr_outcome lr = LoopContinue /\
  c_heap (lr_conn lr) !! 0%nat =
    Some {| tx_gen := tx_gen t; tx_id := tx_id t; tx_fed := tx_fed t;
            tx_state := FException (ProtocolException (Some (JStr "boom")) (Some (JNum 5))) |} /\
  send_await (lr_conn lr) 0%nat =
    Some (inr (ProtocolException (Some (JStr ("boom" ++ augment_suffix t))) (Some (JNum 5)))).
Proof.
  apply (error_frame_fails_transaction no_events _ boom_frame 0 0
           (set_tx_id (new_transaction (cmd_echo "Foo.bar")) 0)
           [("code", JNum 5); ("message", JStr "boom")]);
    try reflexivity.
  right. exists "boom". reflexivity.
Defined.

(** C8: a failed read (the socket closed, normally or not, or any other
    read error) ends [listener_loop] without touching the connection: no
    pending Transaction is resolved, removed or otherwise changed. *)
Theorem read_failure_ends_loop_untouched
    (parse : list (string * json) -> option event) (c : conn) (e : exn) :
  let lr := listener_step parse c (RRaise e) in
  lr_conn lr = c /\ lr_spawned lr = [] /\ lr_outcome lr <> LoopContinue.
Proof.
  cbn. unfold listener_step.
  destruct (c_open c); cbn; [destruct e|]; cbn; repeat split; discriminate.
Qed.

(** C2 (as corrected): for a response frame whose id is a key of [mapper],
    the entry is deleted from [mapper] before the object is called, so it is
    gone whatever the call does, and no other object changes; a response
    frame whose id is hashable but not a key of [mapper] is dropped: the
    loop goes on and only the idle flag is cleared; an id that is a list or
    a dict makes the membership test raise [TypeError] out of the loop. *)
Theorem response_frame_dispatch
    (parse : list (string * json) -> option event) (c : conn)
    (message : list (string * json)) (idj : json) :
  c_open c = true ->
  obj_get "id" message = Some idj ->
  let lr := listener_step parse c (RFrame message) in
  (forall z r, int_key_of idj = Some z -> c_mapper c !! z = Some r ->
     c_mapper (lr_conn lr) = delete z (c_mapper c) /\
     (forall r', r' <> r -> c_heap (lr_conn lr) !! r' = c_heap c !! r')) /\
  (hashable idj = true -> (forall z, int_key_of idj = Some z -> c_mapper c !! z = None) ->
     lr = continue_with (set_idle false c) []) /\
  (hashable idj = false ->
     lr = {| lr_conn := set_idle false c; lr_spawned := []; lr_outcome := LoopRaise TypeError |}).
Proof.
  intros Hopen Hid lr. subst lr. unfold listener_step. rewrite Hopen. cbn -[resolve_ref].
  rewrite Hid. split; [|split].
  - intros z r Hk Hm. rewrite Hk. cbn -[resolve_ref]. rewrite Hm.
    unfold resolve_ref. cbn.
    destruct (c_heap c !! r) as [t|] eqn:Hh.
    + destruct (tx_call t message) as [t' e]. cbn. split; [reflexivity|].
      intros r' Hne. rewrite lookup_insert_ne by congruence. reflexivity.
    + cbn. split; reflexivity.
  - intros Hh Hnone. destruct (int_key_of idj) as [z|] eqn:Hk; [|rewrite Hh; reflexivity].
    cbn. rewrite (Hnone z eq_refl).
    destruct (Z.eqb_spec z (-2)) as [->|]; [|reflexivity].
    rewrite (Hnone (-2)%Z eq_refl). reflexivity.
  - intros Hh. destruct idj; try discriminate; reflexivity.
Qed.

Lemma response_frame_dispatch_witness :
  let c1 := fst (send_register (cmd_echo "Foo.bar") (conn_open reg_empty)) in
  let lr := listener_step no_events c1 (RFrame [("id", JNum 99999); ("result", JObj [])]) in
  lr = continue_with (set_idle false c1) [] /\
  lr_outcome (listener_step no_events c1 (RFrame [("id", JArr [JNum 0]); ("result", JObj [])]))
    = LoopRaise TypeError.
Proof.
  intros c1 lr. split.
  - apply (proj1 (proj2 (response_frame_dispatch no_events c1 [("id", JNum 99999); ("result", JObj [])]
                         (JNum 99999) eq_refl eq_refl)));
      [reflexivity|].
    intros z Hz. injection Hz as <-. reflexivity.
  - rewrite (proj2 (proj2 (response_frame_dispatch no_events c1 [("id", JArr [JNum 0]); ("result", JObj [])]
                             (JArr [JNum 0])
                             eq_refl eq_refl)) eq_refl).
    reflexivity.
Defined.

(** C2 counterexample: command A gets id 0 and is answered, which empties
    [mapper]; command B then draws id 0 again (the counter restarts), and a
    late duplicate of A's answer resolves B with A's result. *)
Lemma late_duplicate_resolves_reused_id :
  let c1 := fst (send_register (cmd_echo "A.first") (conn_open reg_empty)) in
  let c2 := lr_conn (listener_step no_events c1 (RFrame ok_frame)) in
  let c3 := fst (send_register (cmd_echo "B.second") c2) in
  let rB := snd (send_register (cmd_echo "B.second") c2) in
  let c4 := lr_conn (listener_step no_events c3 (RFrame ok_frame)) in
  c_mapper c2 = ∅ /\ c_mapper c3 !! 0%Z = Some rB /\
  send_await c3 rB = None /\
  send_await c4 rB = Some (inl (VJson (JObj [("y", JNum 2)]))).
Proof. vm_compute. repeat split; reflexivity. Qed.

(** C9 (code bug): a result the decoder rejects, or one after which the
    generator does not stop, raises out of [Transaction.__call__] into the
    Reader Loop, which dies; the Transaction, already removed from
    [mapper], stays pending, so its [send] caller never observes a failure. *)
Theorem malformed_result_escapes_resolution :
  let c1 := fst (send_register (cmd_strict "Page.navigate") (conn_open reg_empty)) in
  let r1 := snd (send_register (cmd_strict "Page.navigate") (conn_open reg_empty)) in
  let lr1 := listener_step no_events c1 (RFrame bogus_frame) in
  let c2 := fst (send_register (cmd_two_step "Page.navigate") (conn_open reg_empty)) in
  let r2 := snd (send_register (cmd_two_step "Page.navigate") (conn_open reg_empty)) in
  let lr2 := listener_step no_events c2 (RFrame bogus_frame) in
  lr_outcome lr1 = LoopRaise (KeyError "frameId") /\
  c_mapper (lr_conn lr1) = ∅ /\ send_await (lr_conn lr1) r1 = None /\
  (exists m, lr_outcome lr2 = LoopRaise (ProtocolException (Some (JStr m)) None)) /\
  c_mapper (lr_conn lr2) = ∅ /\ send_await (lr_conn lr2) r2 = None.
Proof.
  vm_compute. split; [reflexivity|]. split; [reflexivity|]. split; [reflexivity|].
  split; [eexists; reflexivity|]. split; reflexivity.
Qed.

(** C10 (as corrected): with no event type, [remove_handlers] given a
    truthy handler (every function, lambda, bound method or coroutine
    function) raises [ValueError] and leaves the registry as it was; given
    a handler object whose truth value is false it treats the handler as
    absent and clears every handler, raising nothing. *)
Theorem remove_handlers_handler_without_type
    (h : handler) (hs : list (evkey * list handler)) :
  remove_handlers None (Some h) hs =
    if h_truthy h then (hs, Some ValueError) else ([], None).
Proof. unfold remove_handlers. destruct (h_truthy h); reflexivity. Qed.

(** C10 counterexample: a falsy handler object passed without an event type
    raises nothing and clears every handler. *)
Lemma remove_handlers_falsy_handler_clears :
  remove_handlers None (Some (falsy_handler 2)) one_handler_registry = ([], None)
  /\ one_handler_registry <> [].
Proof. split; [reflexivity | discriminate]. Qed.










Lemma evict_spec (n : nat) (q : list Z) (m : gmap Z nat) :
  (n <= length q)%nat -> evict n q m = (drop n q, delete_ids (take n q) m).
Proof.
  revert q m. induction n as [|n IH]; intros [|x q] m Hle; cbn in *; try lia.
  - reflexivity.
  - reflexivity.
  - rewrite IH by lia. reflexivity.
Qed.

Lemma event_insert_tracking (ev : event) (c : conn) :
  (Z.of_nat (length (c_evq c)) < CLEANUP_THRESHOLD)%Z ->
  (c_evq (event_insert ev c), c_mapper (event_insert ev c)) =
  (if (Z.of_nat (length (c_evq c ++ [next_id c])%list) <? CLEANUP_THRESHOLD)%Z
   then ((c_evq c ++ [next_id c])%list, <[next_id c := c_next_ref c]> (c_mapper c))
   else (drop 4000 (c_evq c ++ [next_id c])%list,
         delete_ids (take 4000 (c_evq c ++ [next_id c])%list)
                    (<[next_id c := c_next_ref c]> (c_mapper c)))).
Proof.
  intros Hlt. unfold event_insert, deque_append. cbn [c_evq c_mapper].
  unfold CLEANUP_THRESHOLD, MAX_EVENT_TRANSACTIONS in *.
  destruct (Z.ltb_spec (Z.of_nat (length (c_evq c))) 10000); [|lia].
  unfold cleanup_old_event_transactions. unfold CLEANUP_THRESHOLD.
  rewrite length_app in *. cbn [length] in *.
  destruct (Z.ltb_spec (Z.of_nat (length (c_evq c) + 1)) 8000); [reflexivity|].
  assert (Hl : Z.of_nat (length (c_evq c) + 1) = 8000%Z) by lia.
  rewrite Hl. cbn -[evict drop take].
  rewrite evict_spec; [reflexivity|]. rewrite length_app. cbn [length].
  change (8000 - 8000 / 2)%Z with 4000%Z. lia.
Qed.

(** C3: while the listener tracks fewer than [CLEANUP_THRESHOLD] (8000)
    event ids, an insertion that brings the count to 8000 evicts the oldest
    4000 ids from the tracking deque and from [mapper], in the cleanup run
    right after the insertion (any other insertion evicts nothing); so the
    count stays below 8000, and after an eviction (4000 tracked) it is at
    most 4000 plus the number of insertions since. *)
Theorem event_cleanup_bounded :
  (forall (ev : event) (c : conn),
     (Z.of_nat (length (c_evq c)) < CLEANUP_THRESHOLD)%Z ->
     let i := next_id c in
     let q := (c_evq c ++ [i])%list in
     let m := <[i := c_next_ref c]> (c_mapper c) in
     let c' := event_insert ev c in
     (Z.of_nat (length q) = CLEANUP_THRESHOLD ->
        c_evq c' = drop (Z.to_nat (CLEANUP_THRESHOLD / 2)) q /\
        c_mapper c' = delete_ids (take (Z.to_nat (CLEANUP_THRESHOLD / 2)) q) m) /\
     ((Z.of_nat (length q) < CLEANUP_THRESHOLD)%Z -> c_evq c' = q /\ c_mapper c' = m) /\
     (Z.of_nat (length (c_evq c')) < CLEANUP_THRESHOLD)%Z) /\
  (forall (evs : list event) (c : conn),
     (Z.of_nat (length (c_evq c)) <= CLEANUP_THRESHOLD / 2)%Z ->
     (Z.of_nat (length (c_evq (insert_events evs c)))
        <= CLEANUP_THRESHOLD / 2 + Z.of_nat (length evs))%Z).
Proof.
  assert (Hstep : forall ev c,
            (Z.of_nat (length (c_evq c)) < CLEANUP_THRESHOLD)%Z ->
            (length (c_evq (event_insert ev c)) <= S (length (c_evq c)))%nat /\
            (Z.of_nat (length (c_evq (event_insert ev c))) < CLEANUP_THRESHOLD)%Z).
  { intros ev c Hlt. pose proof (f_equal fst (event_insert_tracking ev c Hlt)) as E.
    cbn [fst] in E. rewrite E. clear E.
    unfold CLEANUP_THRESHOLD in *. rewrite !length_app. cbn [length].
    destruct (Z.ltb_spec (Z.of_nat (length (c_evq c) + 1)) 8000) as [Hs|Hs]; cbn [fst].
    - rewrite length_app. cbn [length]. lia.
    - rewrite length_drop, length_app. cbn [length]. lia. }
  split.
  - intros ev c Hlt i q m c'. subst i q m c'.
    pose proof (f_equal fst (event_insert_tracking ev c Hlt)) as E1.
    pose proof (f_equal snd (event_insert_tracking ev c Hlt)) as E2.
    cbn [fst snd] in E1, E2.
    change (Z.to_nat (CLEANUP_THRESHOLD / 2)) with 4000%nat.
    split; [|split].
    + intros Heq. rewrite E1, E2, Heq, Z.ltb_irrefl. split; reflexivity.
    + intros Hq. apply Z.ltb_lt in Hq. rewrite E1, E2, Hq. split; reflexivity.
    + apply Hstep, Hlt.
  - intros evs. unfold insert_events.
    assert (Hgen : forall evs c,
              (Z.of_nat (length (c_evq c)) < CLEANUP_THRESHOLD)%Z ->
              (length (c_evq (fold_left (fun c ev => event_insert ev c) evs c))
                 <= length (c_evq c) + length evs)%nat).
    { induction evs0 as [|ev evs0 IH]; intros c Hlt; cbn; [lia|].
      destruct (Hstep ev c Hlt) as [H1 H2]. specialize (IH _ H2). lia. }
    intros c Hle. unfold CLEANUP_THRESHOLD in *. change (8000 / 2)%Z with 4000%Z in *.
    assert (Hlt : (Z.of_nat (length (c_evq c)) < 8000)%Z) by lia.
    specialize (Hgen evs c Hlt). lia.
Qed.

Lemma event_cleanup_bounded_witness :
  let c := cleanup_eve in
  let q := (c_evq c ++ [next_id c])%list in
  let c' := event_insert nav_event c in
  (c_evq c' = drop (Z.to_nat (CLEANUP_THRESHOLD / 2)) q /\
   c_mapper c' = delete_ids (take (Z.to_nat (CLEANUP_THRESHOLD / 2)) q)
                   (<[next_id c := c_next_ref c]> (c_mapper c))) /\
  (Z.of_nat (length (c_evq (insert_events [nav_event; nav_event] c')))
     <= CLEANUP_THRESHOLD / 2 + 2)%Z.
Proof.
  intros c q c'.
  assert (Hlt : (Z.of_nat (length (c_evq c)) < CLEANUP_THRESHOLD)%Z)
    by (vm_compute; reflexivity).
  destruct (proj1 event_cleanup_bounded nav_event c Hlt) as (Hev & _ & _).
  split.
  - apply Hev. vm_compute. reflexivity.
  - apply (proj2 event_cleanup_bounded [nav_event; nav_event] c').
    vm_compute. discriminate.
Defined.

Lemma evict_mapper_sub (n : nat) (q : list Z) (m : gmap Z nat) (k : Z) :
  is_Some (snd (evict n q m) !! k) -> is_Some (m !! k).
Proof.
  revert q m. induction n as [|n IH]; intros [|x q] m H; cbn in H; auto.
  apply IH in H. apply lookup_delete_is_Some in H. tauto.
Qed.

Lemma cleanup_mapper_sub (q : list Z) (m : gmap Z nat) (k : Z) :
  is_Some (snd (cleanup_old_event_transactions q m) !! k) -> is_Some (m !! k).
Proof.
  unfold cleanup_old_event_transactions.
  destruct (_ <? _)%Z; [auto|]. destruct (_ <=? _)%Z; [auto|].
  apply evict_mapper_sub.
Qed.

Lemma next_id_nonneg (c : conn) : ids_below c -> (0 <= next_id c)%Z.
Proof. intros [H0 _]. unfold next_id. case_bool_decide; lia. Qed.

Lemma next_id_fresh (c : conn) : ids_below c -> c_mapper c !! next_id c = None.
Proof.
  intros [_ Hb]. unfold next_id. case_bool_decide as He.
  - rewrite He. apply lookup_empty.
  - destruct (c_mapper c !! c_count c) eqn:E; [|reflexivity].
    specialize (Hb (c_count c) ltac:(rewrite E; eauto)). lia.
Qed.

Lemma ids_below_insert (c : conn) (r : nat) (k : Z) :
  ids_below c -> is_Some (<[next_id c := r]> (c_mapper c) !! k) ->
  (k < next_id c + 1)%Z.
Proof.
  intros Hc Hk. apply lookup_insert_is_Some in Hk as [<-|[_ Hk]]; [lia|].
  destruct Hc as [_ Hb]. unfold next_id. case_bool_decide as He.
  - rewrite He, lookup_empty in Hk. destruct Hk as [? Hk]; discriminate.
  - specialize (Hb k Hk). lia.
Qed.

Lemma id_step_ids_below (c : conn) (o : id_op) :
  ids_below c -> ids_below (fst (id_step c o)).
Proof.
  intros Hc. pose proof (next_id_nonneg c Hc) as Hn.
  destruct o as [g|ev|g|z]; cbn [id_step fst].
  - split; cbn; [lia|]. intros k Hk. apply (ids_below_insert c _ k Hc Hk).
  - split; cbn; [lia|]. intros k Hk. apply cleanup_mapper_sub in Hk.
    apply (ids_below_insert c _ k Hc Hk).
  - destruct Hc as [H0 Hb]. split; cbn; [lia|]. intros k Hk.
    apply lookup_insert_is_Some in Hk as [<-|[_ Hk]]; [lia|]. auto.
  - destruct Hc as [H0 Hb]. split; cbn; [lia|]. intros k Hk.
    apply lookup_delete_is_Some in Hk as [_ Hk]. auto.
Qed.

Lemma id_step_count (c : conn) (o : id_op) :
  match snd (id_step c o) with
  | Some (z, b) => c_count (fst (id_step c o)) = (z + 1)%Z /\
                   (b = false -> z = c_count c) /\ (b = true -> z = 0%Z)
  | None => c_count (fst (id_step c o)) = c_count c
  end.
Proof.
  destruct o; cbn [id_step fst snd]; try reflexivity;
    (split; [reflexivity|]); unfold next_id;
    (split; intros Hb; rewrite Hb; reflexivity).
Qed.

Lemma run_ids_cons (c : conn) (o : id_op) (os : list id_op) :
  snd (run_ids c (o :: os)) =
  (match snd (id_step c o) with Some x => [x] | None => [] end
    ++ snd (run_ids (fst (id_step c o)) os))%list.
Proof.
  cbn. destruct (id_step c o) as [c' [x|]]; cbn; destruct (run_ids c' os); reflexivity.
Qed.

Lemma run_ids_sorted_from (os : list id_op) (c : conn) :
  Forall (fun d => snd d = false) (snd (run_ids c os)) ->
  StronglySorted Z.lt (map fst (snd (run_ids c os))) /\
  Forall (fun z => c_count c <= z)%Z (map fst (snd (run_ids c os))).
Proof.
  revert c. induction os as [|o os IH]; intros c H; [split; constructor|].
  rewrite run_ids_cons in *. pose proof (id_step_count c o) as Hc.
  destruct (id_step c o) as [c' [[z b]|]]; cbn [fst snd app map] in *.
  - inversion H as [|? ? Hb Hrest]; subst. cbn in Hb.
    destruct Hc as [Hc' [Hz _]]. specialize (Hz Hb).
    destruct (IH c' Hrest) as [Hs Hf]. split.
    + constructor; [exact Hs|]. eapply Forall_impl; [exact Hf|]. cbn. lia.
    + constructor; [lia|]. eapply Forall_impl; [exact Hf|]. cbn. lia.
  - rewrite <- Hc. apply IH, H.
Qed.

(** C6: every id drawn (by [send] or by an event record) is absent from the
    pending table at that moment, and the table invariant (every key below
    the counter) is kept by every operation; an id drawn from an empty table
    is 0; and the ids drawn in a run are strictly increasing (so pairwise
    distinct) as long as the table is non-empty at every draw after the
    first. *)
Theorem id_assignment :
  (forall (c : conn) (o : id_op),
     ids_below c ->
     ids_below (fst (id_step c o)) /\
     forall z b, snd (id_step c o) = Some (z, b) ->
       c_mapper c !! z = None /\ (b = true -> z = 0%Z)) /\
  (forall (os : list id_op) (c : conn),
     Forall (fun d => snd d = false) (tl (snd (run_ids c os))) ->
     StronglySorted Z.lt (map fst (snd (run_ids c os)))).
Proof.
  split.
  - intros c o Hc. split; [apply id_step_ids_below, Hc|].
    intros z b Hd. pose proof (id_step_count c o) as Hn. rewrite Hd in Hn.
    destruct Hn as [_ [_ H0]]. split; [|exact H0].
    destruct o; cbn [id_step snd] in Hd; try discriminate;
      injection Hd as <- _; apply next_id_fresh, Hc.
  - intros os. induction os as [|o os IH]; intros c H; [constructor|].
    rewrite run_ids_cons in *. pose proof (id_step_count c o) as Hc.
    destruct (id_step c o) as [c' [[z b]|]]; cbn [fst snd app map tl] in *.
    + destruct Hc as [Hc' _]. destruct (run_ids_sorted_from os c' H) as [Hs Hf].
      constructor; [exact Hs|]. eapply Forall_impl; [exact Hf|]. cbn. lia.
    + apply IH, H.
Qed.

Lemma id_assignment_witness :
  ids_below (conn_open reg_empty) /\
  ids_below (fst (id_step (conn_open reg_empty) (OpSend (cmd_echo "Page.enable")))) /\
  StronglySorted Z.lt
    (map fst (snd (run_ids (conn_open reg_empty)
                     [OpSend (cmd_echo "Page.enable"); OpOneshot (cmd_echo "Page.enable");
                      OpSend (cmd_echo "Runtime.enable")]))).
Proof.
  assert (H0 : ids_below (conn_open reg_empty)).
  { split; [cbn; lia|]. intros k Hk. cbn in Hk. rewrite lookup_empty in Hk.
    destruct Hk as [? Hk]; discriminate. }
  split; [exact H0|]. split.
  - apply (proj1 (proj1 id_assignment (conn_open reg_empty) _ H0)).
  - apply (proj2 id_assignment). vm_compute. repeat constructor.
Defined.

(** C6 counterexample: a send answered before a second concurrent send
    draws its id empties the table, the counter restarts, and both sends
    are assigned id 0. *)
Lemma answered_then_send_reuses_id :
  map fst (snd (run_ids (conn_open reg_empty) answered_then_send)) = [0%Z; 0%Z].
Proof. vm_compute. reflexivity. Qed.

(* ------------------------------------------------------------------ *)
(** ** Reconciliation proofs *)

(* remove_first *)
Lemma remove_first_ne (x y : string) (l : list string) :
  y <> x -> y ∈ remove_first x l <-> y ∈ l.
Proof.
  intros Hne. induction l as [|a l IH]; cbn; [tauto|].
  destruct (String.eqb_spec x a) as [->|Hxa].
  - rewrite elem_of_cons. tauto.
  - rewrite !elem_of_cons, IH. tauto.
Qed.

Lemma remove_first_sub (x y : string) (l : list string) :
  y ∈ remove_first x l -> y ∈ l.
Proof.
  induction l as [|a l IH]; cbn; [tauto|].
  destruct (String.eqb_spec x a); rewrite ?elem_of_cons; [tauto|].
  intros [H|H]; auto.
Qed.

Lemma remove_first_gone (x : string) (l : list string) :
  NoDup l -> x ∉ remove_first x l.
Proof.
  induction l as [|a l IH]; cbn; intros Hnd.
  - apply not_elem_of_nil.
  - apply NoDup_cons in Hnd as [Ha Hnd].
    destruct (String.eqb_spec x a) as [->|Hxa]; [exact Ha|].
    rewrite elem_of_cons. intros [H|H]; [congruence|]. exact (IH Hnd H).
Qed.

Lemma remove_first_nodup (x : string) (l : list string) :
  NoDup l -> NoDup (remove_first x l).
Proof.
  induction l as [|a l IH]; cbn; intros Hnd; [constructor|].
  apply NoDup_cons in Hnd as [Ha Hnd].
  destruct (String.eqb_spec x a); [exact Hnd|].
  constructor; [|auto]. intros H. apply Ha, (remove_first_sub x), H.
Qed.

(* sweep *)
Lemma sweep_sub (s en : list string) (y : string) :
  y ∈ fst (sweep s en) -> y ∈ en.
Proof.
  revert en. induction s as [|a s IH]; intros en; cbn; [auto|].
  destruct (decide (a ∈ en)); cbn; [|auto].
  intros H. apply IH in H. apply remove_first_sub in H. exact H.
Qed.

Lemma sweep_keep (s en : list string) (y : string) :
  y ∉ s -> y ∈ en -> y ∈ fst (sweep s en).
Proof.
  revert en. induction s as [|a s IH]; intros en Hs Hy; cbn; [auto|].
  rewrite elem_of_cons in Hs.
  destruct (decide (a ∈ en)); cbn; [|auto].
  apply IH; [tauto|]. apply remove_first_ne; [tauto|exact Hy].
Qed.

Lemma sweep_nodup (s en : list string) :
  NoDup en -> NoDup (fst (sweep s en)).
Proof.
  revert en. induction s as [|a s IH]; intros en Hnd; cbn; [auto|].
  destruct (decide (a ∈ en)); cbn; [|auto].
  apply IH, remove_first_nodup, Hnd.
Qed.

Lemma sweep_ok (s en : list string) :
  NoDup s -> NoDup en -> (forall x, x ∈ s -> x ∈ en) ->
  snd (sweep s en) = None /\ forall y, y ∈ fst (sweep s en) -> y ∉ s.
Proof.
  revert en. induction s as [|a s IH]; intros en Hs Hen Hsub; cbn.
  - split; [reflexivity|]. intros y _. apply not_elem_of_nil.
  - apply NoDup_cons in Hs as [Ha Hs].
    destruct (decide (a ∈ en)) as [Hin|Hn];
      [|exfalso; apply Hn, Hsub, elem_of_cons; auto].
    destruct (IH (remove_first a en) Hs (remove_first_nodup a en Hen)) as [He Hy].
    { intros x Hx. apply remove_first_ne; [intros ->; contradiction|].
      apply Hsub, elem_of_cons; auto. }
    split; [exact He|]. intros y Hy'. rewrite elem_of_cons. intros [->|Hys].
    + apply sweep_sub in Hy'. exact (remove_first_gone a en Hen Hy').
    + exact (Hy y Hy' Hys).
Qed.

(* occ *)
Lemma occ_app (d : string) (l1 l2 : list string) : occ d (l1 ++ l2) = occ d l1 + occ d l2.
Proof. unfold occ. rewrite List.filter_app, length_app. reflexivity. Qed.

Lemma occ_single (d x : string) : occ d [x] = if String.eqb d x then 1 else 0.
Proof. unfold occ. cbn. destruct (String.eqb d x); reflexivity. Qed.

(* handler lists *)
Lemma nonemptyb_true (kl : evkey * list handler) : nonemptyb kl = true <-> kl.2 <> [].
Proof. destruct kl as [k [|h l]]; cbn; split; congruence. Qed.

Lemma alookup_In (k : evkey) (l : list handler) hs :
  alookup k hs = Some l -> In (k, l) hs.
Proof.
  induction hs as [|[k' l'] hs IH]; cbn; [discriminate|].
  destruct (decide (k = k')) as [->|]; [intros [= ->]; auto|auto].
Qed.

Lemma In_alookup (k : evkey) (l : list handler) hs :
  NoDup (map fst hs) -> In (k, l) hs -> alookup k hs = Some l.
Proof.
  induction hs as [|[k' l'] hs IH]; cbn; [tauto|].
  intros Hnd. apply NoDup_cons in Hnd as [Hk Hnd].
  destruct (decide (k = k')) as [->|Hne]; intros [H|H].
  - congruence.
  - exfalso. apply Hk. apply list_elem_of_In, in_map_iff. exists (k', l). auto.
  - congruence.
  - auto.
Qed.

Lemma In_nonempty_filter (k : evkey) (l : list handler) hs :
  In (k, l) (List.filter nonemptyb hs) <-> In (k, l) hs /\ l <> [].
Proof. rewrite filter_In, nonemptyb_true. reflexivity. Qed.

Lemma needed_rel hs hs0 d : hs_rel hs hs0 -> needed hs d <-> needed hs0 d.
Proof.
  intros [Hf _]. unfold needed. split; intros (k & l & Hin & Hl & Hd); exists k, l;
    [ assert (H : In (k, l) (List.filter nonemptyb hs0))
    | assert (H : In (k, l) (List.filter nonemptyb hs)) ];
    try (rewrite <- Hf || rewrite Hf); try (apply In_nonempty_filter; auto);
    apply In_nonempty_filter in H; tauto.
Qed.

Lemma hs_rel_refl hs : NoDup (map fst hs) -> hs_rel hs hs.
Proof. split; auto. Qed.

Lemma hs_rel_trans a b c : hs_rel a b -> hs_rel b c -> hs_rel a c.
Proof. intros [H1 H2] [H3 _]. split; [congruence|exact H2]. Qed.

Lemma apop_keys (k : evkey) hs x : x ∈ map fst (apop k hs) -> x ∈ map fst hs.
Proof.
  induction hs as [|[k' l'] hs IH]; cbn; [auto|].
  destruct (decide (k = k')); cbn; rewrite ?elem_of_cons; [auto|]. intuition.
Qed.

Lemma apop_nodup (k : evkey) hs : NoDup (map fst hs) -> NoDup (map fst (apop k hs)).
Proof.
  induction hs as [|[k' l'] hs IH]; cbn; [auto|].
  intros Hnd. apply NoDup_cons in Hnd as [Hk Hnd].
  destruct (decide (k = k')); cbn; [exact Hnd|].
  constructor; [|auto]. intros H. apply Hk, (apop_keys k), H.
Qed.

Lemma apop_rel (k : evkey) hs :
  NoDup (map fst hs) -> (alookup k hs = None \/ alookup k hs = Some []) ->
  hs_rel (apop k hs) hs.
Proof.
  intros Hnd Hl. split; [|apply apop_nodup, Hnd].
  induction hs as [|[k' l'] hs IH]; cbn in *; [reflexivity|].
  destruct (decide (k = k')) as [->|Hne]; cbn.
  - destruct Hl as [Hl|Hl]; [discriminate|]. injection Hl as ->. reflexivity.
  - apply NoDup_cons in Hnd as [_ Hnd]. rewrite (IH Hnd Hl). reflexivity.
Qed.

(* counting pending entries *)
Lemma filter_sub_filter {A} (P Q : A -> bool) (l : list A) :
  (forall x, P x = true -> Q x = true) ->
  List.filter P (List.filter Q l) = List.filter P l.
Proof.
  intros HPQ. induction l as [|x l IH]; cbn; [reflexivity|].
  destruct (Q x) eqn:Eq; cbn; destruct (P x) eqn:Ep; rewrite ?IH; try reflexivity.
  rewrite (HPQ x Ep) in Eq. discriminate.
Qed.

Lemma filter_length_mono {A} (P Q : A -> bool) (l : list A) :
  (forall x, In x l -> P x = true -> Q x = true) ->
  length (List.filter P l) <= length (List.filter Q l).
Proof.
  induction l as [|x l IH]; intros H; cbn; [lia|].
  assert (IH' := IH (fun y Hy => H y (or_intror Hy))).
  destruct (P x) eqn:Ep; [rewrite (H x (or_introl eq_refl) Ep); cbn; lia|].
  destruct (Q x); cbn; lia.
Qed.

Lemma filter_length_lt {A} (P Q : A -> bool) (l : list A) (y : A) :
  (forall x, In x l -> P x = true -> Q x = true) ->
  In y l -> P y = false -> Q y = true ->
  length (List.filter P l) < length (List.filter Q l).
Proof.
  induction l as [|x l IH]; intros H Hy Hp Hq; cbn; [destruct Hy|].
  assert (Hm := filter_length_mono P Q l (fun z Hz => H z (or_intror Hz))).
  destruct Hy as [->|Hy].
  - rewrite Hp, Hq. cbn. lia.
  - assert (IH' := IH (fun z Hz => H z (or_intror Hz)) Hy Hp Hq).
    destruct (P x) eqn:Ep; [rewrite (H x (or_introl eq_refl) Ep); cbn; lia|].
    destruct (Q x); cbn; lia.
Qed.

Lemma pending_entry_nonempty en kl : pending_entry en kl = true -> nonemptyb kl = true.
Proof.
  unfold pending_entry. destruct (dm_of kl.1); [|discriminate].
  destruct (nonemptyb kl); [reflexivity|discriminate].
Qed.

Lemma unenabled_filter en hs :
  length (List.filter (pending_entry en) hs)
  = length (List.filter (pending_entry en) (List.filter nonemptyb hs)).
Proof. rewrite filter_sub_filter; [reflexivity|apply pending_entry_nonempty]. Qed.

Lemma key_ahead_skip hs k ks d :
  key_ahead hs (k :: ks) d ->
  (forall l, In (k, l) hs -> l <> [] -> dm_of k = Some d -> False) ->
  key_ahead hs ks d.
Proof.
  intros (k0 & l & Hk & Hin & Hl & Hd) Hno. apply elem_of_cons in Hk as [->|Hk].
  - exfalso. exact (Hno l Hin Hl Hd).
  - exists k0, l. auto.
Qed.

Lemma in_current hs hs0 k l :
  hs_rel hs hs0 -> In (k, l) hs0 -> l <> [] -> alookup k hs = Some l.
Proof.
  intros [Hf Hnd] Hin Hl. apply In_alookup; [exact Hnd|].
  assert (H : In (k, l) (List.filter nonemptyb hs0)) by (apply In_nonempty_filter; auto).
  rewrite <- Hf in H. apply In_nonempty_filter in H. tauto.
Qed.

Lemma needed_current hs k l d :
  alookup k hs = Some l -> l <> [] -> dm_of k = Some d -> needed hs d.
Proof. intros H Hl Hd. exists k, l. split; [apply alookup_In, H|auto]. Qed.

Lemma unenabled_mono ok r0 ks r saved new :
  loop_inv ok r0 ks r saved new -> unenabled r <= unenabled r0.
Proof.
  intros Hi. unfold unenabled.
  rewrite (unenabled_filter (enabled_domains r)), (unenabled_filter (enabled_domains r0)).
  rewrite (proj1 (li_hs _ _ _ _ _ _ Hi)). apply filter_length_mono.
  intros [k l] Hin. apply In_nonempty_filter in Hin as [Hin Hl].
  unfold pending_entry. cbn [fst]. destruct (dm_of k) as [d|] eqn:Hd; [|discriminate].
  rewrite !andb_true_iff, !negb_true_iff, !bool_decide_eq_false.
  intros [[Hne Hen] Hao]. split; [split|]; auto.
  intros H0. apply Hen. apply (li_keep _ _ _ _ _ _ Hi d H0). exists k, l. auto.
Qed.

Lemma unenabled_append r k l dm :
  alookup k (handlers r) = Some l -> l <> [] -> dm_of k = Some dm ->
  dm ∉ enabled_domains r -> dm ∉ always_on ->
  unenabled (set_enabled (enabled_domains r ++ [dm])%list r) < unenabled r.
Proof.
  intros Hk Hl Hd Hen Hao. unfold unenabled. cbn [handlers enabled_domains set_enabled].
  apply (filter_length_lt _ _ _ (k, l)).
  - intros [k' l'] _. unfold pending_entry. cbn [fst]. destruct (dm_of k'); [|discriminate].
    rewrite !andb_true_iff, !negb_true_iff, !bool_decide_eq_false.
    intros [[Hne H1] H2]. split; [split|]; auto. intros H. apply H1, elem_of_app; auto.
  - apply alookup_In, Hk.
  - unfold pending_entry. cbn [fst]. rewrite Hd.
    rewrite bool_decide_eq_true_2; [|apply elem_of_app; right; apply list_elem_of_singleton; reflexivity].
    rewrite andb_false_r. reflexivity.
  - unfold pending_entry. cbn [fst]. rewrite Hd.
    rewrite !bool_decide_eq_false_2 by assumption.
    destruct l as [|h t]; [congruence|]. reflexivity.
Qed.

Lemma nested_step_inv ok r0 k ks r saved new l dm r2 e2 r' extra (drop : bool) :
  loop_inv ok r0 (k :: ks) r saved new ->
  alookup k (handlers r) = Some l -> l <> [] -> dm_of k = Some dm ->
  dm ∉ enabled_domains r ->
  reg_post ok (set_enabled (enabled_domains r ++ [dm])%list r) r2 e2 ->
  handlers r' = handlers r2 ->
  enabled_domains r' = (if drop then remove_first dm (enabled_domains r2)
                        else enabled_domains r2) ->
  enable_sent r' = (enable_sent r2 ++ extra)%list ->
  (forall d, d <> dm -> occ d extra = 0) ->
  (e2 = None -> extra = [dm] /\ drop = negb (ok dm)) ->
  exists new', loop_inv ok r0 ks r' saved new'.
Proof.
  intros Hi Hl Hl0 Hd Hnin Hpost Hh' Hen' Hs' Hxtra Hcons.
  destruct Hi as [Hhs Hnd Hkeep Hsame Hsnd Hssub Hsst Hsah Hsent Hq Honce Hfail].
  set (r1 := set_enabled (enabled_domains r ++ [dm])%list r) in *.
  destruct Hpost as (P1 & P2 & P3 & P4 & new2 & P5 & P6 & P7).
  assert (Hh1 : handlers r1 = handlers r) by reflexivity.
  assert (He1 : enabled_domains r1 = (enabled_domains r ++ [dm])%list) by reflexivity.
  assert (Hs1 : enable_sent r1 = enable_sent r) by reflexivity.
  assert (Hn1 : forall x, needed (handlers r1) x <-> needed (handlers r0) x).
  { intros x. rewrite Hh1. apply needed_rel, Hhs. }
  assert (Htoold : forall x, x ∈ enabled_domains r' -> x ∈ enabled_domains r2).
  { intros x. rewrite Hen'. destruct drop; [apply remove_first_sub|auto]. }
  assert (Htonew : forall x, x <> dm -> x ∈ enabled_domains r2 -> x ∈ enabled_domains r').
  { intros x Hne. rewrite Hen'. destruct drop; [apply remove_first_ne, Hne|auto]. }
  assert (Hin1 : forall x, x ∈ enabled_domains r -> x ∈ enabled_domains r1).
  { intros x Hx. rewrite He1. apply elem_of_app. auto. }
  assert (Hdm1 : dm ∈ enabled_domains r1).
  { rewrite He1. apply elem_of_app. right. apply list_elem_of_singleton. reflexivity. }
  assert (Hcr1 : consistent r0 -> consistent r1).
  { intros Hc x Hx. rewrite He1 in Hx. apply elem_of_app in Hx as [Hx|Hx].
    - apply Hn1. destruct Hsame as [Heq|Hall]; [rewrite Heq in Hx; apply Hc, Hx|apply Hall, Hx].
    - apply list_elem_of_singleton in Hx as ->. rewrite Hh1.
      exact (needed_current _ _ _ _ Hl Hl0 Hd). }
  exists (new ++ new2 ++ extra)%list. constructor.
  - rewrite Hh'. eapply hs_rel_trans; [exact P1|]. rewrite Hh1. exact Hhs.
  - rewrite Hen'. destruct drop; [apply remove_first_nodup|]; exact P2.
  - intros d Hd0 Hn. assert (Hdr : d ∈ enabled_domains r) by auto.
    apply Htonew; [intros ->; contradiction|]. apply P3; [auto|]. apply Hn1, Hn.
  - right. intros d Hd0. apply Hn1, P4, Htoold, Hd0.
  - exact Hsnd.
  - exact Hssub.
  - exact Hsst.
  - intros d Hd0 Hn. apply (key_ahead_skip _ _ _ _ (Hsah d Hd0 Hn)).
    intros l' Hin' Hl' Hdk. rewrite Hd in Hdk. injection Hdk as <-.
    apply Hnin, Hkeep; auto.
  - rewrite Hs', P5, Hs1, Hsent, !app_assoc. reflexivity.
  - intros d Hd0 Hn. assert (Hdr : d ∈ enabled_domains r) by auto.
    assert (Hne : d <> dm) by (intros ->; contradiction).
    rewrite !occ_app, (Hq d Hd0 Hn), (P6 d (Hin1 d Hdr) (proj2 (Hn1 d) Hn)), (Hxtra d Hne).
    reflexivity.
  - intros Hc d Hn Hd0 Hda Hok.
    destruct (P7 (Hcr1 Hc)) as (He2 & Pa & Pf). destruct (Hcons He2) as [-> Hdrop].
    left. destruct (Honce Hc d Hn Hd0 Hda Hok) as [[Hin Hocc]|[Hnin' [Hocc Hah]]].
    + assert (Hne : d <> dm) by (intros ->; contradiction).
      split; [apply Htonew; [exact Hne|]; apply P3; [auto|apply Hn1, Hn]|].
      rewrite !occ_app, Hocc, (P6 d (Hin1 d Hin) (proj2 (Hn1 d) Hn)), occ_single.
      apply String.eqb_neq in Hne. rewrite Hne. reflexivity.
    + destruct (decide (d = dm)) as [->|Hne].
      * rewrite Hok in Hdrop. cbn in Hdrop. subst drop. rewrite Hen'.
        split; [apply P3; [exact Hdm1|apply Hn1, Hn]|].
        rewrite !occ_app, Hocc, (P6 dm Hdm1 (proj2 (Hn1 dm) Hn)), occ_single, String.eqb_refl.
        reflexivity.
      * assert (Hn1' : d ∉ enabled_domains r1).
        { rewrite He1, elem_of_app, list_elem_of_singleton. tauto. }
        destruct (Pa d (proj2 (Hn1 d) Hn) Hn1' Hda Hok) as [Hin2 Hocc2].
        split; [apply Htonew; auto|].
        rewrite !occ_app, Hocc, Hocc2, occ_single.
        apply String.eqb_neq in Hne. rewrite Hne. reflexivity.
  - intros Hc d Hok Hd0.
    destruct (P7 (Hcr1 Hc)) as (He2 & Pa & Pf). destruct (Hcons He2) as [-> Hdrop].
    assert (Hdr := Hfail Hc d Hok Hd0).
    destruct (decide (d = dm)) as [->|Hne].
    + rewrite Hok in Hdrop. cbn in Hdrop. subst drop. rewrite Hen'.
      apply remove_first_gone, P2.
    + assert (Hn1' : d ∉ enabled_domains r1).
      { rewrite He1, elem_of_app, list_elem_of_singleton. tauto. }
      intros H. apply (Pf d Hok Hn1'), Htoold, H.
Qed.

Lemma unchanged_step_inv ok r0 k ks r saved new :
  loop_inv ok r0 (k :: ks) r saved new ->
  (forall d l, In (k, l) (handlers r0) -> l <> [] -> dm_of k = Some d ->
     d ∈ enabled_domains r -> d ∉ saved) ->
  (forall d l, In (k, l) (handlers r0) -> l <> [] -> dm_of k = Some d ->
     d ∉ enabled_domains r -> d ∈ always_on) ->
  loop_inv ok r0 ks r saved new.
Proof.
  intros Hi Hen Hao.
  destruct Hi as [Hhs Hnd Hkeep Hsame Hsnd Hssub Hsst Hsah Hsent Hq Honce Hfail].
  constructor; auto.
  - intros d Hd0 Hn. apply (key_ahead_skip _ _ _ _ (Hsah d Hd0 Hn)).
    intros l Hin Hl Hdk. apply (Hen d l Hin Hl Hdk); [|exact Hd0].
    apply Hkeep; auto.
  - intros Hc d Hn Hd0 Hda Hok.
    destruct (Honce Hc d Hn Hd0 Hda Hok) as [A|[B1 [B2 B3]]]; [left; exact A|right].
    split; [exact B1|split; [exact B2|]].
    apply (key_ahead_skip _ _ _ _ B3). intros l Hin Hl Hdk.
    exact (Hda (Hao d l Hin Hl Hdk B1)).
Qed.

Section Visit.
Variable ok : string -> bool.
Variable nested : registry -> registry * option exn.
Variable f : nat.
Hypothesis Hnest : forall r, NoDup (map fst (handlers r)) -> NoDup (enabled_domains r) ->
  unenabled r < f -> reg_post ok r (fst (nested r)) (snd (nested r)).

Lemma reg_visit_inv r0 k ks r saved new :
  unenabled r0 <= f ->
  loop_inv ok r0 (k :: ks) r saved new ->
  exists new', loop_inv ok r0 ks (fst (reg_visit nested ok (r, saved) k))
                             (snd (reg_visit nested ok (r, saved) k)) new'.
Proof.
  intros Hf Hi. unfold reg_visit.
  assert (Hhs := li_hs _ _ _ _ _ _ Hi).
  assert (Hpop : alookup k (handlers r) = None \/ alookup k (handlers r) = Some [] ->
                 exists new', loop_inv ok r0 ks (set_handlers (apop k (handlers r)) r) saved new').
  { intros Hl. exists new.
    destruct Hi as [_ Hnd Hkeep Hsame Hsnd Hssub Hsst Hsah Hsent Hq Honce Hfail].
    assert (Hfree : forall l, In (k, l) (handlers r0) -> l <> [] -> False).
    { intros l Hin Hl0. rewrite (in_current _ _ _ _ Hhs Hin Hl0) in Hl.
      destruct Hl as [Hl|Hl]; [discriminate|injection Hl as ->; contradiction]. }
    constructor; cbn [handlers enabled_domains enable_sent set_handlers]; auto.
    + eapply hs_rel_trans; [|exact Hhs]. apply apop_rel; [apply Hhs|exact Hl].
    + intros d Hd0 Hn. apply (key_ahead_skip _ _ _ _ (Hsah d Hd0 Hn)).
      intros l Hin Hl0 _. exact (Hfree l Hin Hl0).
    + intros Hc d Hn Hd0 Hda Hok.
      destruct (Honce Hc d Hn Hd0 Hda Hok) as [A|[B1 [B2 B3]]]; [left; exact A|right].
      split; [exact B1|split; [exact B2|]].
      apply (key_ahead_skip _ _ _ _ B3). intros l Hin Hl0 _. exact (Hfree l Hin Hl0). }
  destruct (alookup k (handlers r)) as [[|h t]|] eqn:Hl.
  1, 3: cbn [fst snd]; apply Hpop; auto.
  - destruct (dm_of k) as [dm|] eqn:Hd.
    2:{ exists new. apply (unchanged_step_inv _ _ _ _ _ _ _ Hi); congruence. }
    assert (Hcur : forall d l, In (k, l) (handlers r0) -> l <> [] -> dm_of k = Some d ->
                     d = dm) by congruence.
    destruct (decide (dm ∈ enabled_domains r)) as [Hin|Hnin].
    + (* already enabled: drop it from the saved copy *)
      destruct (decide (dm ∈ saved)) as [Hs|Hs]; cbn [fst snd].
      * exists new.
        destruct Hi as [_ Hnd Hkeep Hsame Hsnd Hssub Hsst Hsah Hsent Hq Honce Hfail].
        assert (Hndm : needed (handlers r0) dm).
        { apply (needed_rel _ _ _ Hhs). eapply needed_current; [exact Hl|discriminate|exact Hd]. }
        constructor; auto.
        -- apply remove_first_nodup, Hsnd.
        -- intros d Hd0. apply remove_first_sub in Hd0. auto.
        -- intros d Hd0. destruct (decide (d = dm)) as [->|Hne]; [left; exact Hndm|].
           destruct (Hsst d Hd0) as [A|A]; [left; exact A|right].
           apply remove_first_ne; auto.
        -- intros d Hd0 Hn. assert (Hne : d <> dm).
           { intros ->. exact (remove_first_gone dm saved Hsnd Hd0). }
           apply remove_first_sub in Hd0.
           apply (key_ahead_skip _ _ _ _ (Hsah d Hd0 Hn)).
           intros l Hin0 Hl0 Hdk. exact (Hne (Hcur d l Hin0 Hl0 Hdk)).
        -- intros Hc d Hn Hd0 Hda Hok.
           destruct (Honce Hc d Hn Hd0 Hda Hok) as [A|[B1 [B2 B3]]]; [left; exact A|right].
           split; [exact B1|split; [exact B2|]].
           apply (key_ahead_skip _ _ _ _ B3). intros l Hin0 Hl0 Hdk.
           rewrite (Hcur d l Hin0 Hl0 Hdk) in B1. contradiction.
      * exists new. apply (unchanged_step_inv _ _ _ _ _ _ _ Hi).
        -- intros d l Hin0 Hl0 Hdk. rewrite (Hcur d l Hin0 Hl0 Hdk). intros _. exact Hs.
        -- intros d l Hin0 Hl0 Hdk. rewrite (Hcur d l Hin0 Hl0 Hdk). contradiction.
    + destruct (decide (dm ∈ always_on)) as [Hao|Hao].
      * exists new. cbn [fst snd]. apply (unchanged_step_inv _ _ _ _ _ _ _ Hi).
        -- intros d l Hin0 Hl0 Hdk. rewrite (Hcur d l Hin0 Hl0 Hdk). contradiction.
        -- intros d l Hin0 Hl0 Hdk. rewrite (Hcur d l Hin0 Hl0 Hdk). auto.
      * set (r1 := set_enabled (enabled_domains r ++ [dm])%list r).
        assert (Hpost : reg_post ok r1 (fst (nested r1)) (snd (nested r1))).
        { apply Hnest.
          - apply Hhs.
          - cbn. apply NoDup_app. split; [apply (li_nodup _ _ _ _ _ _ Hi)|].
            split; [|apply NoDup_singleton].
            intros x Hx Hx'. apply list_elem_of_singleton in Hx' as ->. contradiction.
          - eapply Nat.lt_le_trans;
              [apply (unenabled_append r k (h :: t) dm Hl ltac:(discriminate) Hd Hnin Hao)|].
            eapply Nat.le_trans; [apply (unenabled_mono _ _ _ _ _ _ Hi)|exact Hf]. }
        destruct (nested r1) as [r2 e2] eqn:Hn. cbn [fst snd] in Hpost |- *.
        destruct e2 as [ex|].
        -- eapply (nested_step_inv _ _ _ _ _ _ _ _ _ r2 (Some ex) _ [] true Hi Hl
                      ltac:(discriminate) Hd Hnin Hpost); try reflexivity.
           ++ cbn. rewrite app_nil_r. reflexivity.
           ++ discriminate.
        -- destruct (ok dm) eqn:Ho; cbn [fst snd].
           ++ eapply (nested_step_inv _ _ _ _ _ _ _ _ _ r2 None _ [dm] false Hi Hl
                        ltac:(discriminate) Hd Hnin Hpost); try reflexivity.
              ** intros d Hne. rewrite occ_single. apply String.eqb_neq in Hne. rewrite Hne. reflexivity.
              ** rewrite Ho. auto.
           ++ eapply (nested_step_inv _ _ _ _ _ _ _ _ _ r2 None _ [dm] true Hi Hl
                        ltac:(discriminate) Hd Hnin Hpost); try reflexivity.
              ** intros d Hne. rewrite occ_single. apply String.eqb_neq in Hne. rewrite Hne. reflexivity.
              ** rewrite Ho. auto.
Qed.
End Visit.

Lemma fold_visit_inv ok f r0 :
  (forall r, NoDup (map fst (handlers r)) -> NoDup (enabled_domains r) ->
     unenabled r < f ->
     reg_post ok r (fst (register_handlers f ok r)) (snd (register_handlers f ok r))) ->
  unenabled r0 <= f ->
  forall ks r saved new, loop_inv ok r0 ks r saved new ->
  exists new', loop_inv ok r0 []
    (fst (fold_left (reg_visit (register_handlers f ok) ok) ks (r, saved)))
    (snd (fold_left (reg_visit (register_handlers f ok) ok) ks (r, saved))) new'.
Proof.
  intros Hnest Hf ks. induction ks as [|k ks IH]; intros r saved new Hi; [exists new; exact Hi|].
  destruct (reg_visit_inv ok _ f Hnest r0 k ks r saved new Hf Hi) as [new' Hi'].
  cbn [fold_left]. rewrite (surjective_pairing (reg_visit _ _ _ _)).
  exact (IH _ _ _ Hi').
Qed.

Lemma loop_inv_init ok r0 :
  NoDup (map fst (handlers r0)) -> NoDup (enabled_domains r0) ->
  loop_inv ok r0 (map fst (handlers r0)) r0 (enabled_domains r0) [].
Proof.
  intros Hk He. constructor; auto.
  - apply hs_rel_refl, Hk.
  - intros d Hd Hn. destruct Hn as (k & l & Hin & Hl & Hdk). exists k, l.
    split; [|auto]. apply list_elem_of_In, in_map_iff. exists (k, l). auto.
  - rewrite app_nil_r. reflexivity.
  - intros Hc d Hn Hd0 Hda Hok. right. split; [exact Hd0|split; [reflexivity|]].
    destruct Hn as (k & l & Hin & Hl & Hdk). exists k, l.
    split; [|auto]. apply list_elem_of_In, in_map_iff. exists (k, l). auto.
Qed.

Lemma key_ahead_nil hs d : ~ key_ahead hs [] d.
Proof. intros (k & l & Hk & _). apply not_elem_of_nil in Hk. exact Hk. Qed.

Lemma loop_inv_final ok r0 r saved new :
  loop_inv ok r0 [] r saved new ->
  reg_post ok r0 (set_enabled (fst (sweep saved (enabled_domains r))) r)
                 (snd (sweep saved (enabled_domains r))).
Proof.
  intros [Hhs Hnd Hkeep Hsame Hsnd Hssub Hsst Hsah Hsent Hq Honce Hfail].
  assert (Hns : forall d, d ∈ saved -> ~ needed (handlers r0) d).
  { intros d Hd Hn. exact (key_ahead_nil _ _ (Hsah d Hd Hn)). }
  split; [exact Hhs|]. split; [apply sweep_nodup, Hnd|]. split.
  { intros d Hd Hn. cbn. apply sweep_keep; [|auto]. intros Hs. exact (Hns d Hs Hn). }
  split.
  { intros d Hd. cbn in Hd. destruct Hsame as [Heq|Hall]; [|apply Hall, (sweep_sub saved), Hd].
    assert (Hsub : forall x, x ∈ saved -> x ∈ enabled_domains r) by (intros x Hx; rewrite Heq; auto).
    destruct (sweep_ok saved (enabled_domains r) Hsnd Hnd Hsub) as [_ Hy].
    assert (Hd0 : d ∈ enabled_domains r0) by (rewrite <- Heq; apply (sweep_sub saved), Hd).
    destruct (Hsst d Hd0) as [A|A]; [exact A|]. exfalso. exact (Hy d Hd A). }
  exists new. split; [exact Hsent|]. split; [exact Hq|].
  intros Hc.
  assert (Hsub : forall x, x ∈ saved -> x ∈ enabled_domains r).
  { intros x Hx. apply Hkeep; [auto|]. apply Hc, Hssub, Hx. }
  destruct (sweep_ok saved (enabled_domains r) Hsnd Hnd Hsub) as [He _].
  split; [exact He|]. split.
  - intros d Hn Hd0 Hda Hok. cbn.
    destruct (Honce Hc d Hn Hd0 Hda Hok) as [[Hin Hocc]|[_ [_ Hah]]];
      [|destruct (key_ahead_nil _ _ Hah)].
    split; [|exact Hocc]. apply sweep_keep; [|exact Hin].
    intros Hs. exact (Hd0 (Hssub d Hs)).
  - intros d Hok Hd0 H. cbn in H. apply (sweep_sub saved) in H.
    exact (Hfail Hc d Hok Hd0 H).
Qed.

Lemma register_handlers_post ok (f : nat) :
  forall r, NoDup (map fst (handlers r)) -> NoDup (enabled_domains r) ->
  unenabled r < f ->
  reg_post ok r (fst (register_handlers f ok r)) (snd (register_handlers f ok r)).
Proof.
  induction f as [|f IH]; intros r Hk He Hf; [lia|].
  cbn [register_handlers].
  destruct (fold_visit_inv ok f r IH ltac:(lia) _ r (enabled_domains r) []
              (loop_inv_init ok r Hk He)) as [new Hi].
  destruct (fold_left _ _ _) as [r' saved]. cbn [fst snd] in Hi.
  pose proof (loop_inv_final _ _ _ _ _ Hi) as Hp.
  destruct (sweep saved (enabled_domains r')) as [en e]. exact Hp.
Qed.

Lemma filter_length_le' {A} (P : A -> bool) (l : list A) :
  length (List.filter P l) <= length l.
Proof. induction l as [|x l IH]; cbn; [lia|]. destruct (P x); cbn; lia. Qed.

Lemma reconcile_post ok r :
  NoDup (map fst (handlers r)) -> NoDup (enabled_domains r) ->
  reg_post ok r (fst (reconcile ok r)) (snd (reconcile ok r)).
Proof.
  intros Hk He. apply register_handlers_post; [exact Hk|exact He|].
  unfold unenabled. pose proof (filter_length_le' (pending_entry (enabled_domains r)) (handlers r)).
  lia.
Qed.




(** An enabled domain with no handler left, together with a domain to be
    enabled, makes the final [self.enabled_domains.remove(ed)] raise
    [ValueError]: the nested reconciliation already removed the stale
    domain. *)
Lemma stale_domain_sweep_raises :
  snd (reconcile (fun _ => true) stale_runtime_registry) = Some ValueError /\
  enabled_domains (fst (reconcile (fun _ => true) stale_runtime_registry)) = ["page"].
Proof. vm_compute. split; reflexivity. Qed.

(* ================================================================== *)
(** * Further properties of the code *)

Lemma alookup_aset_eq (k : evkey) v hs : alookup k (aset k v hs) = Some v.
Proof.
  induction hs as [|[k' l] hs IH]; cbn; [by rewrite decide_True|].
  destruct (decide (k = k')) as [->|Hne]; cbn.
  - by rewrite decide_True.
  - rewrite decide_False by done. exact IH.
Qed.

Lemma alookup_aset_ne (k k' : evkey) v hs :
  k <> k' -> alookup k' (aset k v hs) = alookup k' hs.
Proof.
  intros Hne. induction hs as [|[j l] hs IH]; cbn.
  - by rewrite decide_False.
  - destruct (decide (k = j)) as [->|Hkj]; cbn.
    + rewrite decide_False by done. by destruct (decide (k' = j)).
    + destruct (decide (k' = j)); [reflexivity|exact IH].
Qed.

Lemma aset_aset (k : evkey) v w hs : aset k v (aset k w hs) = aset k v hs.
Proof.
  induction hs as [|[j l] hs IH]; cbn.
  - by rewrite decide_True.
  - destruct (decide (k = j)); cbn.
    + by rewrite decide_True.
    + rewrite decide_False by done. by rewrite IH.
Qed.

Lemma aset_lookup_same (k : evkey) hs :
  aset k (handlers_of k hs) hs =
  match alookup k hs with Some _ => hs | None => (hs ++ [(k, [])])%list end.
Proof.
  unfold handlers_of.
  induction hs as [|[j l] hs IH]; cbn; [reflexivity|].
  destruct (decide (k = j)) as [->|Hne]; [reflexivity|].
  rewrite IH. destruct (alookup k hs); reflexivity.
Qed.

Lemma aset_keys (k : evkey) v hs :
  map fst (aset k v hs) =
  match alookup k hs with Some _ => map fst hs | None => (map fst hs ++ [k])%list end.
Proof.
  induction hs as [|[j l] hs IH]; cbn; [reflexivity|].
  destruct (decide (k = j)) as [->|Hne]; cbn; [reflexivity|].
  rewrite IH. destruct (alookup k hs); reflexivity.
Qed.

Lemma alookup_none_keys (k : evkey) hs : alookup k hs = None -> k ∉ map fst hs.
Proof.
  induction hs as [|[j l] hs IH]; cbn; intros H.
  - apply not_elem_of_nil.
  - destruct (decide (k = j)); [discriminate|].
    rewrite elem_of_cons. intros [->|Hin]; [done|]. exact (IH H Hin).
Qed.

Lemma alookup_apop_eq (k : evkey) hs :
  NoDup (map fst hs) -> alookup k (apop k hs) = None.
Proof.
  induction hs as [|[j l] hs IH]; cbn; intros Hnd; [reflexivity|].
  apply NoDup_cons in Hnd as [Hj Hnd].
  destruct (decide (k = j)) as [->|Hne]; cbn.
  - destruct (alookup j hs) eqn:E; [|reflexivity].
    exfalso. apply Hj. apply list_elem_of_In. apply in_map_iff.
    apply alookup_In in E. exists (j, l0). split; [reflexivity|exact E].
  - rewrite decide_False by done. exact (IH Hnd).
Qed.

Lemma alookup_apop_ne (k k' : evkey) hs :
  k <> k' -> alookup k' (apop k hs) = alookup k' hs.
Proof.
  intros Hne. induction hs as [|[j l] hs IH]; cbn; [reflexivity|].
  destruct (decide (k = j)) as [->|Hkj]; cbn.
  - by rewrite decide_False.
  - destruct (decide (k' = j)); [reflexivity|exact IH].
Qed.

Lemma remove_handler_app_last (h : handler) (l : list handler) :
  ~ In (h_id h) (map h_id l) -> remove_handler h (l ++ [h])%list = l.
Proof.
  induction l as [|h' l IH]; cbn; intros Hn.
  - by rewrite Nat.eqb_refl.
  - destruct (Nat.eqb_spec (h_id h') (h_id h)) as [E|E]; [exfalso; apply Hn; left; exact E|].
    rewrite IH; [reflexivity|]. intros Hi. apply Hn. right. exact Hi.
Qed.

Lemma remove_handler_absent (h : handler) (l : list handler) :
  existsb (fun h' => (h_id h' =? h_id h)%nat) l = false -> remove_handler h l = l.
Proof.
  induction l as [|h' l IH]; cbn; [reflexivity|].
  destruct (h_id h' =? h_id h)%nat; cbn; [discriminate|]. intros H. by rewrite IH.
Qed.

Lemma remove_handler_count (h : handler) (l : list handler) :
  reg_count h (remove_handler h l) = reg_count h l - 1.
Proof.
  unfold reg_count. induction l as [|h' l IH]; cbn; [reflexivity|].
  destruct (h_id h' =? h_id h)%nat eqn:E; cbn; [lia|]. rewrite E. exact IH.
Qed.

Lemma existsb_count (h : handler) (l : list handler) :
  existsb (fun h' => (h_id h' =? h_id h)%nat) l = false -> reg_count h l = 0.
Proof.
  unfold reg_count. induction l as [|h' l IH]; cbn; [reflexivity|].
  destruct (h_id h' =? h_id h)%nat; cbn; [discriminate|]. exact IH.
Qed.

(* ---- the handler registry ---- *)

(** X1: [add_handler] for an event type appends the handler to that type's
    list (a missing type starts from the empty list) and leaves every
    other type's list as it was. *)
Theorem add_handler_lookup (et : evkey) (h : handler) (hs : list (evkey * list handler)) :
  alookup et (add_handler et h hs) = Some (handlers_of et hs ++ [h])%list /\
  (forall k, k <> et -> alookup k (add_handler et h hs) = alookup k hs).
Proof.
  unfold add_handler. split.
  - apply alookup_aset_eq.
  - intros k Hk. apply alookup_aset_ne. congruence.
Qed.

(** X2: [add_handler] keeps the order of the registered event types and
    adds a new type at the end only when it was missing; distinct types
    stay distinct. *)
Theorem add_handler_keys (et : evkey) (h : handler) (hs : list (evkey * list handler)) :
  map fst (add_handler et h hs) =
    match alookup et hs with Some _ => map fst hs | None => (map fst hs ++ [et])%list end /\
  (NoDup (map fst hs) -> NoDup (map fst (add_handler et h hs))).
Proof.
  unfold add_handler. rewrite aset_keys. split; [reflexivity|].
  intros Hnd. destruct (alookup et hs) eqn:E; [exact Hnd|].
  apply NoDup_app. split; [exact Hnd|]. split; [|apply NoDup_singleton].
  intros x Hx Hy. apply list_elem_of_singleton in Hy. subst x.
  exact (alookup_none_keys et hs E Hx).
Qed.

(** X3: adding a truthy handler that is not yet registered for a type and
    then removing it with [remove_handlers(type, handler)] gives back the
    registry, except that a type that was missing now maps to an empty
    list. *)
Theorem add_then_remove_handler (et : evkey) (h : handler) (hs : list (evkey * list handler)) :
  h_truthy h = true ->
  ~ In (h_id h) (map h_id (handlers_of et hs)) ->
  remove_handlers (Some et) (Some h) (add_handler et h hs) =
    (match alookup et hs with Some _ => hs | None => (hs ++ [(et, [])])%list end, None).
Proof.
  intros Ht Hn. unfold remove_handlers. rewrite Ht.
  cbn -[aset alookup handlers_of existsb remove_handler].
  unfold add_handler. rewrite alookup_aset_eq.
  assert (E : handlers_of et (aset et (handlers_of et hs ++ [h]) hs) = (handlers_of et hs ++ [h])%list)
    by (unfold handlers_of at 1; by rewrite alookup_aset_eq).
  rewrite E, existsb_app. cbn [existsb]. rewrite Nat.eqb_refl, orb_true_r. cbn [orb].
  rewrite remove_handler_app_last by exact Hn.
  rewrite aset_aset. rewrite aset_lookup_same. reflexivity.
Qed.

Lemma add_then_remove_handler_witness :
  remove_handlers (Some (EvType "network" "RequestWillBeSent")) (Some (plain_handler 2))
    (add_handler (EvType "network" "RequestWillBeSent") (plain_handler 2) one_handler_registry)
  = (one_handler_registry, None).
Proof.
  apply (add_then_remove_handler (EvType "network" "RequestWillBeSent") (plain_handler 2)
           one_handler_registry).
  - reflexivity.
  - cbn. intros [H|[]]. discriminate.
Defined.

(** X4: [remove_handlers(type)] with no handler, or with a falsy one,
    deletes the whole entry of the type and keeps the others; for a type
    that is not registered it raises [KeyError] and changes nothing. *)
Theorem remove_handlers_event_only (et : evkey) (ha : option handler)
    (hs : list (evkey * list handler)) :
  match ha with Some h => h_truthy h = false | None => True end ->
  NoDup (map fst hs) ->
  let '(hs', e) := remove_handlers (Some et) ha hs in
  (is_Some (alookup et hs) ->
     e = None /\ alookup et hs' = None /\
     forall k, k <> et -> alookup k hs' = alookup k hs) /\
  (alookup et hs = None -> hs' = hs /\ e = Some (KeyError "event_type")).
Proof.
  intros Hf Hnd. unfold remove_handlers.
  assert (Hg : match ha with Some h => h_truthy h | None => false end = false)
    by (destruct ha; auto).
  rewrite Hg. cbn -[apop alookup].
  destruct (alookup et hs) eqn:E.
  - split; [|discriminate]. intros _. split; [reflexivity|]. split.
    + apply alookup_apop_eq, Hnd.
    + intros k Hk. apply alookup_apop_ne. congruence.
  - split; [intros [? H]; discriminate|]. intros _. split; reflexivity.
Qed.

Lemma remove_handlers_event_only_witness :
  snd (remove_handlers (Some (EvType "network" "RequestWillBeSent")) None one_handler_registry)
    = None /\
  alookup (EvType "network" "RequestWillBeSent")
    (fst (remove_handlers (Some (EvType "network" "RequestWillBeSent")) None one_handler_registry))
    = None.
Proof.
  pose proof (remove_handlers_event_only (EvType "network" "RequestWillBeSent") None
                one_handler_registry I) as H.
  assert (Hnd : NoDup (map fst one_handler_registry)).
  { apply (bool_decide_unpack _). vm_compute. reflexivity. }
  specialize (H Hnd).
  destruct (remove_handlers _ _ _) as [hs' e]. cbn [fst snd].
  destruct H as [H _]. destruct (H ltac:(vm_compute; eauto)) as (He & Hl & _).
  split; [exact He|exact Hl].
Defined.

(** X5: [remove_handlers(type, handler)] with a truthy handler never
    raises, removes only the first registration of that handler (its count
    drops by one, or stays 0), and leaves the other types alone. *)
Theorem remove_handlers_one_registration (et : evkey) (h : handler)
    (hs : list (evkey * list handler)) :
  h_truthy h = true ->
  let '(hs', e) := remove_handlers (Some et) (Some h) hs in
  e = None /\
  alookup et hs' = Some (remove_handler h (handlers_of et hs)) /\
  reg_count h (handlers_of et hs') = reg_count h (handlers_of et hs) - 1 /\
  (forall k, k <> et -> alookup k hs' = alookup k hs).
Proof.
  intros Ht. unfold remove_handlers. rewrite Ht.
  cbn -[aset alookup handlers_of existsb remove_handler].
  set (hs1 := match alookup et hs with Some _ => hs | None => aset et [] hs end).
  assert (H1 : handlers_of et hs1 = handlers_of et hs).
  { subst hs1. unfold handlers_of. destruct (alookup et hs) eqn:E; [by rewrite E|].
    by rewrite alookup_aset_eq. }
  assert (H2 : forall k, k <> et -> alookup k hs1 = alookup k hs).
  { intros k Hk. subst hs1. destruct (alookup et hs); [reflexivity|].
    apply alookup_aset_ne. congruence. }
  assert (H3 : alookup et hs1 = Some (handlers_of et hs)).
  { rewrite <- H1. subst hs1. unfold handlers_of.
    destruct (alookup et hs) eqn:E; [by rewrite E|]. by rewrite alookup_aset_eq. }
  rewrite H1.
  destruct (existsb _ (handlers_of et hs)) eqn:Ex.
  - split; [reflexivity|]. split; [apply alookup_aset_eq|]. split.
    + unfold handlers_of at 1. rewrite alookup_aset_eq. apply remove_handler_count.
    + intros k Hk. rewrite alookup_aset_ne by congruence. apply H2, Hk.
  - rewrite remove_handler_absent by exact Ex.
    split; [reflexivity|]. split; [exact H3|]. split.
    + rewrite H1. rewrite (existsb_count h _ Ex). reflexivity.
    + exact H2.
Qed.

Lemma remove_handlers_one_registration_witness :
  snd (remove_handlers (Some (EvType "network" "RequestWillBeSent")) (Some (plain_handler 1))
         one_handler_registry) = None /\
  alookup (EvType "network" "RequestWillBeSent")
    (fst (remove_handlers (Some (EvType "network" "RequestWillBeSent")) (Some (plain_handler 1))
            one_handler_registry)) = Some [].
Proof.
  pose proof (remove_handlers_one_registration (EvType "network" "RequestWillBeSent")
                (plain_handler 1) one_handler_registry eq_refl) as H.
  destruct (remove_handlers _ _ _) as [hs' e]. cbn [fst snd].
  destruct H as (He & Hl & _). split; [exact He|]. rewrite Hl. vm_compute. reflexivity.
Defined.

(** X6: a pending Transaction reports [has_exception] true and its repr
    shows success; after an error frame it still reports an exception and
    the repr shows failure; after a result the decoder accepts it reports
    no exception. *)
Theorem has_exception_after_call (t : tx) (kv : list (string * json)) :
  tx_state t = FPending ->
  has_exception t = true /\ repr_success t = true /\
  (forall err, obj_get "error" kv = Some err ->
     snd (tx_call t kv) = None /\
     has_exception (fst (tx_call t kv)) = true /\
     repr_success (fst (tx_call t kv)) = false) /\
  (forall g res v, obj_get "error" kv = None -> obj_get "result" kv = Some res ->
     tx_gen t = Some g -> gen_parse g res = GStop v ->
     snd (tx_call t kv) = None /\
     has_exception (fst (tx_call t kv)) = false /\
     repr_success (fst (tx_call t kv)) = true).
Proof.
  intros Hp. unfold has_exception, repr_success, fut_done, fut_exception.
  rewrite Hp. split; [reflexivity|]. split; [reflexivity|]. split.
  - intros err He. unfold tx_call, obj_has. rewrite He. unfold fut_set. rewrite Hp.
    cbn. repeat split.
  - intros g res v He Hr Hg Hs. unfold tx_call, obj_has. rewrite He, Hr, Hg, Hs.
    unfold fut_set. cbn. rewrite Hp. cbn. repeat split.
Qed.

Lemma has_exception_after_call_witness :
  let t := new_transaction (cmd_echo "Foo.bar") in
  has_exception (fst (tx_call t boom_frame)) = true /\
  has_exception (fst (tx_call t ok_frame)) = false.
Proof.
  intros t.
  destruct (has_exception_after_call t boom_frame eq_refl) as (_ & _ & Herr & _).
  destruct (has_exception_after_call t ok_frame eq_refl) as (_ & _ & _ & Hok).
  split.
  - apply (Herr (JObj [("code", JNum 5); ("message", JStr "boom")]) eq_refl).
  - apply (Hok (cmd_echo "Foo.bar") (JObj [("y", JNum 2)]) (JObj [("y", JNum 2)]));
      reflexivity.
Defined.

(** X7: [send] writes [{method, params, id}] with the next id; the
    matching result frame keeps the loop running, removes the id from
    [mapper], feeds the result to the decoder once, and the awaited value
    is the decoded one. *)
Theorem send_response_round_trip (parse : list (string * json) -> option event)
    (g : cdp_gen) (c : conn) (kv : list (string * json)) (res v : json) :
  c_open c = true ->
  obj_get "id" kv = Some (JNum (next_id c)) ->
  obj_get "error" kv = None -> obj_get "result" kv = Some res ->
  gen_parse g res = GStop v ->
  let '(c1, r) := send_register g c in
  let lr := listener_step parse c1 (RFrame kv) in
  last (c_out c1) = Some (JObj [("method", JStr (gen_method g));
                                ("params", tx_params (new_transaction g));
                                ("id", JNum (next_id c))]) /\
  lr_outcome lr = LoopContinue /\
  c_mapper (lr_conn lr) !! next_id c = None /\
  option_map tx_fed (c_heap (lr_conn lr) !! r) = Some [res] /\
  send_await (lr_conn lr) r = Some (inl (VJson v)).
Proof.
  intros Ho Hid He Hr Hs. cbn -[listener_step].
  split; [rewrite last_app; reflexivity|].
  unfold listener_step. cbn -[tx_call]. rewrite Ho. cbn -[tx_call]. rewrite Hid.
  cbn -[tx_call]. rewrite lookup_insert_eq.
  unfold resolve_ref. cbn -[tx_call]. rewrite lookup_insert_eq.
  unfold tx_call, obj_has. rewrite He, Hr. cbn -[fut_set]. rewrite Hs.
  unfold fut_set. cbn. split; [reflexivity|]. split; [apply lookup_delete_eq|].
  unfold send_await. cbn. rewrite lookup_insert_eq. cbn. split; reflexivity.
Qed.

Lemma send_response_round_trip_witness :
  send_await (lr_conn (listener_step no_events
                 (fst (send_register (cmd_echo "Foo.bar") (conn_open reg_empty)))
                 (RFrame ok_frame))) 0%nat
  = Some (inl (VJson (JObj [("y", JNum 2)]))).
Proof.
  pose proof (send_response_round_trip no_events (cmd_echo "Foo.bar") (conn_open reg_empty)
                ok_frame (JObj [("y", JNum 2)]) (JObj [("y", JNum 2)])
                eq_refl eq_refl eq_refl eq_refl eq_refl) as H.
  cbn -[listener_step send_await] in H. destruct H as (_ & _ & _ & _ & H). exact H.
Defined.

(** X8: [_send_oneshot] does not advance the id counter; its reply (id -2)
    is removed from [mapper]; an error reply makes the await return [None]
    instead of raising, and a result reply returns the decoded value. *)
Theorem oneshot_reply (parse : list (string * json) -> option event)
    (g : cdp_gen) (c : conn) (kv : list (string * json)) :
  c_open c = true ->
  obj_get "id" kv = Some (JNum (-2)) ->
  let c1 := oneshot_register g c in
  let r := c_next_ref c in
  let lr := listener_step parse c1 (RFrame kv) in
  c_count c1 = c_count c /\
  c_mapper (lr_conn lr) !! (-2)%Z = None /\
  (forall err, obj_get "error" kv = Some err ->
     lr_outcome lr = LoopContinue /\ oneshot_await (lr_conn lr) r = Some (inl None)) /\
  (forall res v, obj_get "error" kv = None -> obj_get "result" kv = Some res ->
     gen_parse g res = GStop v ->
     lr_outcome lr = LoopContinue /\ oneshot_await (lr_conn lr) r = Some (inl (Some (VJson v)))).
Proof.
  intros Ho Hid c1 r lr. subst c1 r lr.
  unfold listener_step. cbn -[tx_call]. rewrite Ho. cbn -[tx_call]. rewrite Hid.
  cbn -[tx_call]. rewrite lookup_insert_eq.
  unfold resolve_ref. cbn -[tx_call]. rewrite lookup_insert_eq.
  split; [reflexivity|].
  destruct (tx_call _ kv) as [t' e] eqn:Hc. cbn [lr_conn lr_outcome c_mapper set_heap].
  split; [apply lookup_delete_eq|]. split.
  - intros err He. unfold tx_call, obj_has in Hc. rewrite He in Hc.
    unfold fut_set in Hc. cbn in Hc. injection Hc as <- <-.
    split; [reflexivity|]. unfold oneshot_await. cbn. rewrite lookup_insert_eq. cbn.
    destruct err; reflexivity.
  - intros res v He Hr Hs. unfold tx_call, obj_has in Hc. rewrite He, Hr in Hc.
    cbn in Hc. rewrite Hs in Hc. unfold fut_set in Hc. cbn in Hc. injection Hc as <- <-.
    split; [reflexivity|]. unfold oneshot_await. cbn. rewrite lookup_insert_eq. reflexivity.
Qed.

Lemma oneshot_reply_witness :
  oneshot_await (lr_conn (listener_step no_events
                  (oneshot_register (cmd_echo "Page.enable") (conn_open reg_empty))
                  (RFrame [("id", JNum (-2)); ("error", JObj [("message", JStr "no")])]))) 0%nat
  = Some (inl None).
Proof.
  destruct (oneshot_reply no_events (cmd_echo "Page.enable") (conn_open reg_empty)
              [("id", JNum (-2)); ("error", JObj [("message", JStr "no")])] eq_refl eq_refl)
    as (_ & _ & Herr & _).
  apply (Herr (JObj [("message", JStr "no")]) eq_refl).
Defined.

Lemma str_app_empty_r (s : string) : (s ++ "")%string = s.
Proof.
  induction s as [|a s IH]; [reflexivity|].
  change (String a (s ++ "") = String a s). by rewrite IH.
Qed.

Lemma str_app_assoc (a b d : string) : ((a ++ b) ++ d)%string = (a ++ (b ++ d))%string.
Proof.
  induction a as [|x a IH]; [reflexivity|].
  change (String x ((a ++ b) ++ d) = String x (a ++ (b ++ d))). by rewrite IH.
Qed.

(** X9: when [send] fails on an error frame, the raised
    [ProtocolException] reads as the remote message, then the command
    description, then [ [code: c]] when the code is truthy. *)
Theorem send_error_str (parse : list (string * json) -> option event) (c : conn)
    (message : list (string * json)) (i : Z) (r : nat) (t : tx)
    (err : list (string * json)) (m : string) :
  c_open c = true ->
  obj_get "id" message = Some (JNum i) ->
  c_mapper c !! i = Some r ->
  c_heap c !! r = Some t ->
  tx_state t = FPending ->
  obj_get "error" message = Some (JObj err) ->
  obj_get "message" err = Some (JStr m) ->
  exists e,
    send_await (lr_conn (listener_step parse c (RFrame message))) r = Some (inr e) /\
    protocol_exception_str e =
      Some (m ++ augment_suffix t ++
            match obj_get "code" err with
            | Some cj => if py_truthy cj then " [code: " ++ py_str cj ++ "]" else ""
            | None => ""
            end).
Proof.
  intros Hopen Hid Hm Hh Hst Herr Hmsg.
  unfold listener_step. rewrite Hopen. cbn -[tx_call].
  rewrite Hid. cbn -[tx_call]. rewrite Hm.
  unfold resolve_ref. cbn -[tx_call]. rewrite Hh.
  unfold tx_call. unfold obj_has. rewrite Herr. cbn.
  unfold fut_set. rewrite Hst. cbn.
  unfold send_await. cbn. rewrite lookup_insert_eq. cbn.
  eexists. split; [reflexivity|]. rewrite Hmsg. cbn.
  assert (Hs : (if negb (String.eqb m "") then JStr m else JStr "") = JStr m).
  { destruct (String.eqb m "") eqn:E; [apply String.eqb_eq in E; subst; reflexivity|reflexivity]. }
  rewrite Hs. unfold protocol_exception_str, augment_suffix.
  cbn [py_str tx_method tx_params set_state tx_gen].
  destruct (obj_get "code" err) as [cj|]; [|rewrite str_app_empty_r; reflexivity].
  destruct (py_truthy cj).
  - rewrite !str_app_assoc. reflexivity.
  - rewrite str_app_empty_r. reflexivity.
Qed.

Lemma send_error_str_witness :
  protocol_exception_str (ProtocolException (Some (JStr "boom")) (Some (JNum 5)))
    = Some "boom [code: 5]" /\
  exists e,
    send_await (lr_conn (listener_step no_events
                  (fst (send_register (cmd_echo "Foo.bar") (conn_open reg_empty)))
                  (RFrame boom_frame))) 0%nat = Some (inr e) /\
    protocol_exception_str e =
      Some ("boom" ++ augment_suffix (set_tx_id (new_transaction (cmd_echo "Foo.bar")) 0)
            ++ " [code: 5]").
Proof.
  split; [vm_compute; reflexivity|].
  apply (send_error_str no_events _ boom_frame 0 0
           (set_tx_id (new_transaction (cmd_echo "Foo.bar")) 0)
           [("code", JNum 5); ("message", JStr "boom")] "boom"); reflexivity.
Defined.

Lemma resolve_ref_conn (c : conn) (r : nat) (kv : list (string * json)) :
  lr_conn (resolve_ref c r kv) = c \/
  exists t', lr_conn (resolve_ref c r kv) = set_heap (<[r := t']> (c_heap c)) c.
Proof.
  unfold resolve_ref. destruct (c_heap c !! r) as [t|]; [|left; reflexivity].
  destruct (tx_call t kv) as [t' e]. right. exists t'. reflexivity.
Qed.

(** The states one iteration of the loop can leave. *)
Lemma listener_step_cases parse (c : conn) (rr : recv_result) :
  let c' := lr_conn (listener_step parse c rr) in
  c' = c \/ c' = set_idle true c \/ c' = set_idle false c \/
  (exists z r kv, c_mapper c !! z = Some r /\
     c' = lr_conn (resolve_ref (set_mapper (delete z (c_mapper c)) (set_idle false c)) r kv)) \/
  (exists z r kv, c_mapper c !! z = Some r /\
     c' = lr_conn (resolve_ref (set_idle false c) r kv)) \/
  (exists ev, c' = event_insert ev (set_idle false c)).
Proof.
  cbn zeta. unfold listener_step.
  destruct (c_open c); cbn [negb]; [|left; reflexivity].
  destruct rr as [kv| | |e].
  - destruct (obj_get "id" kv) as [idj|].
    + destruct (int_key_of idj) as [z|];
        [|right; right; left; destruct (hashable idj); reflexivity].
      cbn [c_mapper set_idle].
      destruct (c_mapper c !! z) as [r|] eqn:Hz.
      * right; right; right; left. exists z, r, kv. split; [exact Hz|reflexivity].
      * destruct (Z.eqb z (-2)); [|right; right; left; reflexivity].
        destruct (c_mapper c !! (-2)%Z) as [r|] eqn:H2; [|right; right; left; reflexivity].
        right; right; right; right; left. exists (-2)%Z, r, kv. split; [exact H2|reflexivity].
    + destruct (parse kv) as [ev|]; [|right; right; left; reflexivity].
      right; right; right; right; right. exists ev.
      destruct (alookup _ _) as [[|h l]|]; try reflexivity.
      destruct (dispatch _) as [ts e]. reflexivity.
  - right; left. reflexivity.
  - left. reflexivity.
  - destruct e; left; reflexivity.
Qed.

Lemma listener_run_cons parse c rr rest :
  listener_run parse c (rr :: rest) =
  match lr_outcome (listener_step parse c rr) with
  | LoopContinue => listener_run parse (lr_conn (listener_step parse c rr)) rest
  | _ => lr_conn (listener_step parse c rr)
  end.
Proof. reflexivity. Qed.

(** An invariant of every iteration is one of the whole loop. *)
Lemma listener_run_inv (P : conn -> Prop) parse :
  (forall c rr, P c -> P (lr_conn (listener_step parse c rr))) ->
  forall rrs c, P c -> P (listener_run parse c rrs).
Proof.
  intros Hstep rrs. induction rrs as [|rr rest IH]; intros c Hc; [exact Hc|].
  rewrite listener_run_cons. destruct (lr_outcome _); auto.
Qed.

Lemma evict_lookup_sub (n : nat) (q : list Z) (m : gmap Z nat) (k : Z) (v : nat) :
  snd (evict n q m) !! k = Some v -> m !! k = Some v.
Proof.
  revert q m. induction n as [|n IH]; intros [|x q] m H; cbn in H; auto.
  apply IH in H. apply lookup_delete_Some in H. tauto.
Qed.

Lemma cleanup_lookup_sub (q : list Z) (m : gmap Z nat) (k : Z) (v : nat) :
  snd (cleanup_old_event_transactions q m) !! k = Some v -> m !! k = Some v.
Proof.
  unfold cleanup_old_event_transactions.
  destruct (_ <? _)%Z; [auto|]. destruct (_ <=? _)%Z; [auto|].
  apply evict_lookup_sub.
Qed.

Lemma evict_keep (n : nat) (q : list Z) (m : gmap Z nat) (k : Z) :
  k ∉ q -> snd (evict n q m) !! k = m !! k.
Proof.
  revert q m. induction n as [|n IH]; intros [|x q] m Hk; cbn; auto.
  rewrite elem_of_cons in Hk. rewrite IH by tauto.
  apply lookup_delete_ne. intros ->. tauto.
Qed.

Lemma cleanup_keep (q : list Z) (m : gmap Z nat) (k : Z) :
  k ∉ q -> snd (cleanup_old_event_transactions q m) !! k = m !! k.
Proof.
  intros Hk. unfold cleanup_old_event_transactions.
  destruct (_ <? _)%Z; [reflexivity|]. destruct (_ <=? _)%Z; [reflexivity|].
  apply evict_keep, Hk.
Qed.

Lemma evict_queue_sub (n : nat) (q : list Z) (m : gmap Z nat) (x : Z) :
  x ∈ fst (evict n q m) -> x ∈ q.
Proof.
  revert q m. induction n as [|n IH]; intros [|y q] m H; cbn in H; auto.
  apply IH in H. apply elem_of_cons. tauto.
Qed.

Lemma cleanup_queue_sub (q : list Z) (m : gmap Z nat) (x : Z) :
  x ∈ fst (cleanup_old_event_transactions q m) -> x ∈ q.
Proof.
  unfold cleanup_old_event_transactions.
  destruct (_ <? _)%Z; [auto|]. destruct (_ <=? _)%Z; [auto|].
  apply evict_queue_sub.
Qed.

Lemma deque_append_sub (n x : Z) (q : list Z) (y : Z) :
  y ∈ deque_append n x q -> y ∈ q \/ y = x.
Proof.
  unfold deque_append. destruct (_ <? _)%Z; rewrite elem_of_app, list_elem_of_singleton.
  - tauto.
  - destruct q as [|z q]; cbn; [tauto|]. rewrite elem_of_cons. tauto.
Qed.

(* ---- pending objects no entry refers to ---- *)

Lemma unreferenced_step parse r0 t0 c rr :
  unreferenced r0 t0 c -> unreferenced r0 t0 (lr_conn (listener_step parse c rr)).
Proof.
  intros (Hb & Hlt & Hn & Hh).
  assert (Hres : forall c1 r kv, c_mapper c1 !! (0%Z) = c_mapper c1 !! (0%Z) ->
            refs_below c1 -> r0 < c_next_ref c1 -> (forall k, c_mapper c1 !! k <> Some r0) ->
            c_heap c1 !! r0 = Some t0 -> r <> r0 ->
            unreferenced r0 t0 (lr_conn (resolve_ref c1 r kv))).
  { intros c1 r kv _ H1 H2 H3 H4 Hne.
    destruct (resolve_ref_conn c1 r kv) as [-> | [t' ->]]; [repeat split; auto|].
    repeat split; cbn; auto. rewrite lookup_insert_ne by congruence. exact H4. }
  destruct (listener_step_cases parse c rr)
    as [-> | [-> | [-> | [(z & r & kv & Hz & ->) | [(z & r & kv & Hz & ->) | (ev & ->)]]]]].
  - repeat split; auto.
  - repeat split; auto.
  - repeat split; auto.
  - apply Hres; cbn; auto.
    + intros k v Hk. cbn in Hk. apply lookup_delete_Some in Hk as [_ Hk]. exact (Hb k v Hk).
    + intros k Hk. cbn in Hk. apply lookup_delete_Some in Hk as [_ Hk]. exact (Hn k Hk).
    + intros ->. exact (Hn z Hz).
  - apply Hres; cbn; auto. intros ->. exact (Hn z Hz).
  - unfold event_insert. repeat split; cbn.
    + intros k v Hk. cbn in Hk |- *. apply cleanup_lookup_sub in Hk.
      apply lookup_insert_Some in Hk as [[_ <-]|[_ Hk]]; [cbn; lia|].
      specialize (Hb k v Hk). cbn in Hb. lia.
    + cbn in Hlt. lia.
    + intros k Hk. cbn in Hk. apply cleanup_lookup_sub in Hk.
      apply lookup_insert_Some in Hk as [[_ Hk]|[_ Hk]]; [cbn in Hlt; lia|].
      exact (Hn k Hk).
    + rewrite lookup_insert_ne by (cbn in Hlt; lia). exact Hh.
Qed.

(** X10: when two [_send_oneshot] calls are in flight, the second replaces
    the first in [mapper] under id -2; no later read ever resolves the
    first Transaction, so its await never returns. *)
Theorem overlapping_oneshots_first_lost parse (g1 g2 : cdp_gen) (c : conn)
    (rrs : list recv_result) :
  refs_below c ->
  c_heap (listener_run parse (oneshot_register g2 (oneshot_register g1 c)) rrs)
    !! c_next_ref c = Some (set_tx_id (new_transaction g1) (-2)%Z).
Proof.
  intros Hb.
  assert (H0 : unreferenced (c_next_ref c) (set_tx_id (new_transaction g1) (-2)%Z)
                 (oneshot_register g2 (oneshot_register g1 c))).
  { unfold unreferenced, oneshot_register. cbn. split; [|split; [lia|split]].
    - intros k v Hk. cbn in Hk |- *. apply lookup_insert_Some in Hk as [[_ <-]|[Hk2 Hk]]; [lia|].
      apply lookup_insert_Some in Hk as [[_ <-]|[_ Hk]]; [lia|].
      specialize (Hb k v Hk). lia.
    - intros k Hk. cbn in Hk. apply lookup_insert_Some in Hk as [[_ Hk]|[Hk2 Hk]]; [lia|].
      apply lookup_insert_Some in Hk as [[Hk1 _]|[_ Hk]]; [congruence|].
      specialize (Hb k _ Hk). lia.
    - rewrite lookup_insert_ne by lia. apply lookup_insert_eq. }
  apply (listener_run_inv (unreferenced (c_next_ref c) (set_tx_id (new_transaction g1) (-2)%Z))
           parse (unreferenced_step parse _ _) rrs) in H0.
  destruct H0 as (_ & _ & _ & H). exact H.
Qed.

Lemma overlapping_oneshots_first_lost_witness :
  c_heap (listener_run no_events
            (oneshot_register (cmd_echo "Network.setUserAgentOverride")
               (oneshot_register (cmd_echo "Runtime.evaluate") (conn_open reg_empty)))
            [RFrame [("id", JNum (-2)); ("result", JObj [])]; RTimeout])
    !! 0%nat = Some (set_tx_id (new_transaction (cmd_echo "Runtime.evaluate")) (-2)%Z).
Proof.
  apply (overlapping_oneshots_first_lost no_events _ _ (conn_open reg_empty)).
  intros k v Hk. cbn in Hk. rewrite lookup_empty in Hk. discriminate.
Defined.

(* ---- ids over the loop ---- *)

Lemma ids_below_step parse c rr : ids_below c -> ids_below (lr_conn (listener_step parse c rr)).
Proof.
  intros Hc.
  assert (Hres : forall c1 r kv, ids_below c1 -> ids_below (lr_conn (resolve_ref c1 r kv))).
  { intros c1 r kv H1. destruct (resolve_ref_conn c1 r kv) as [-> | [t' ->]]; [exact H1|].
    exact H1. }
  destruct (listener_step_cases parse c rr)
    as [-> | [-> | [-> | [(z & r & kv & Hz & ->) | [(z & r & kv & Hz & ->) | (ev & ->)]]]]];
    try exact Hc.
  - apply Hres. destruct Hc as [H0 Hb]. split; [exact H0|]. cbn. intros k Hk.
    apply lookup_delete_is_Some in Hk as [_ Hk]. exact (Hb k Hk).
  - apply Hres. exact Hc.
  - exact (id_step_ids_below (set_idle false c) (OpEvent ev) Hc).
Qed.

(** X11: through any sequence of reads, the listener keeps every id in
    [mapper] below the next id [send] will use, so a fresh id never
    collides with a pending entry. *)
Theorem listener_keeps_ids_fresh parse (c : conn) (rrs : list recv_result) :
  ids_below c ->
  let c' := listener_run parse c rrs in
  ids_below c' /\ c_mapper c' !! next_id c' = None.
Proof.
  intros Hc c'. assert (H : ids_below c') by exact (listener_run_inv ids_below parse
                                              (ids_below_step parse) rrs c Hc).
  split; [exact H|]. apply next_id_fresh, H.
Qed.

Lemma listener_keeps_ids_fresh_witness :
  let c := fst (send_register (cmd_echo "Page.enable") (conn_open reg_empty)) in
  let c' := listener_run parse_page_events c [RFrame event_frame; RFrame ok_frame] in
  c_mapper c' !! next_id c' = None.
Proof.
  intros c c'. apply (listener_keeps_ids_fresh parse_page_events c).
  split; [vm_compute; discriminate|]. intros k Hk. subst c. cbn in Hk.
  apply lookup_insert_is_Some in Hk as [<-|[_ Hk]]; [cbn; lia|].
  rewrite lookup_empty in Hk. destruct Hk; discriminate.
Defined.

(* ---- listener restarts ---- *)

Lemma restart_inv_step (k : Z) (r : nat) (ev : event) (c : conn) :
  c_mapper c !! k = Some r -> (forall x, x ∈ c_evq c -> (k < x)%Z) -> (k < c_count c)%Z ->
  c_mapper (event_insert ev c) !! k = Some r /\
  (forall x, x ∈ c_evq (event_insert ev c) -> (k < x)%Z) /\ (k < c_count (event_insert ev c))%Z.
Proof.
  intros Hm Hq Hk.
  assert (Hi : next_id c = c_count c).
  { unfold next_id. case_bool_decide as He; [|reflexivity].
    rewrite He, lookup_empty in Hm. discriminate. }
  assert (Hq' : forall x, x ∈ deque_append MAX_EVENT_TRANSACTIONS (next_id c) (c_evq c) ->
                  (k < x)%Z).
  { intros x Hx. apply deque_append_sub in Hx as [Hx| ->]; [exact (Hq x Hx)|lia]. }
  unfold event_insert. cbn. split; [|split].
  - rewrite cleanup_keep by (intros Hin; specialize (Hq' k Hin); lia).
    rewrite lookup_insert_ne by lia. exact Hm.
  - intros x Hx. apply cleanup_queue_sub in Hx. exact (Hq' x Hx).
  - lia.
Qed.

(** X12: starting a new Listener (as [aopen] does) keeps every [mapper]
    entry, the event records included, and inserting new events with their
    cleanup never removes one: the old listener's event records are not
    cleaned up. *)
Theorem restart_orphans_event_records (evs : list event) (c : conn) (k : Z) (r : nat) :
  ids_below c -> c_mapper c !! k = Some r ->
  c_mapper (insert_events evs (new_listener c)) !! k = Some r.
Proof.
  intros [_ Hb] Hm. specialize (Hb k ltac:(rewrite Hm; eauto)).
  unfold insert_events.
  assert (H : forall evs c', c_mapper c' !! k = Some r ->
               (forall x, x ∈ c_evq c' -> (k < x)%Z) -> (k < c_count c')%Z ->
               c_mapper (fold_left (fun c ev => event_insert ev c) evs c') !! k = Some r).
  { induction evs0 as [|ev evs0 IH]; intros c' H1 H2 H3; [exact H1|].
    cbn. destruct (restart_inv_step k r ev c' H1 H2 H3) as (A & B & C). apply IH; auto. }
  apply H; cbn; auto. intros x Hx. apply not_elem_of_nil in Hx. contradiction.
Qed.

Lemma restart_orphans_event_records_witness :
  let ev := {| ev_type := frame_navigated; ev_payload := JObj event_frame |} in
  let c := event_insert ev (conn_open reg_empty) in
  c_mapper (insert_events [ev; ev; ev] (new_listener c)) !! 0%Z = Some 0%nat.
Proof.
  intros ev c. apply (restart_orphans_event_records [ev; ev; ev] c 0 0).
  - apply (id_step_ids_below (conn_open reg_empty) (OpEvent ev)).
    split; [cbn; lia|]. intros k Hk. cbn in Hk. rewrite lookup_empty in Hk.
    destruct Hk; discriminate.
  - vm_compute. reflexivity.
Defined.

Lemma n_rel_refl r : NoDup (map fst (handlers r)) -> n_rel r r.
Proof.
  intros Hnd. split; [apply hs_rel_refl, Hnd|]. split; [auto|].
  exists []. rewrite app_nil_r. split; [reflexivity|].
  intros d Hd. apply not_elem_of_nil in Hd. contradiction.
Qed.

Lemma n_rel_trans r0 r r' : n_rel r0 r -> n_rel r r' -> n_rel r0 r'.
Proof.
  intros (H1 & H2 & new & H3 & H4) (G1 & G2 & new' & G3 & G4).
  split; [exact (hs_rel_trans _ _ _ G1 H1)|]. split; [auto|].
  exists (new ++ new')%list. split; [rewrite G3, H3, app_assoc; reflexivity|].
  intros d Hd. apply elem_of_app in Hd as [Hd|Hd]; [exact (H4 d Hd)|].
  destruct (G4 d Hd) as [Hn Ha]. split; [|exact Ha].
  apply (needed_rel _ _ d H1), Hn.
Qed.

Lemma n_rel_send r r2 dm :
  n_rel r r2 -> needed (handlers r) dm -> dm ∉ always_on ->
  n_rel r (set_sent (enable_sent r2 ++ [dm])%list r2).
Proof.
  intros (H1 & H2 & new & H3 & H4) Hn Ha. split; [exact H1|]. split; [exact H2|].
  exists (new ++ [dm])%list. cbn. split; [rewrite H3, app_assoc; reflexivity|].
  intros d Hd. apply elem_of_app in Hd as [Hd|Hd]; [exact (H4 d Hd)|].
  apply list_elem_of_singleton in Hd. subst d. auto.
Qed.

Lemma apop_In (k : evkey) hs kl : In kl (apop k hs) -> In kl hs.
Proof.
  induction hs as [|[k' l'] hs IH]; cbn; [auto|].
  destruct (decide (k = k')); cbn; [auto|]. intros [H|H]; auto.
Qed.

Lemma visit_keep r0 k ks r r' h l :
  visit_j r0 (k :: ks) r -> alookup k (handlers r) = Some (h :: l) -> n_rel r r' ->
  visit_j r0 ks r'.
Proof.
  intros [Hr Hne] Hk Hr'. split; [exact (n_rel_trans _ _ _ Hr Hr')|].
  intros k' l' Hin Hks. destruct Hr' as (_ & Hsub & _). apply Hsub in Hin.
  destruct (decide (k' = k)) as [->|Hkk].
  - destruct Hr as ([_ Hnd] & _). rewrite (In_alookup k l' _ Hnd Hin) in Hk.
    injection Hk as ->. discriminate.
  - apply (Hne k' l' Hin). rewrite elem_of_cons. intros [H|H]; [congruence|contradiction].
Qed.

Lemma visit_pop r0 k ks r :
  visit_j r0 (k :: ks) r ->
  (alookup k (handlers r) = None \/ alookup k (handlers r) = Some []) ->
  visit_j r0 ks (set_handlers (apop k (handlers r)) r).
Proof.
  intros [(H1 & H2 & new & H3 & H4) Hne] Hk.
  assert (Hnd : NoDup (map fst (handlers r))) by apply H1.
  split; [split; [|split]|].
  - exact (hs_rel_trans _ _ _ (apop_rel k _ Hnd Hk) H1).
  - intros kl Hin. apply H2, (apop_In k), Hin.
  - exists new. cbn. split; [exact H3|exact H4].
  - cbn. intros k' l' Hin Hks. destruct (decide (k' = k)) as [->|Hkk].
    + exfalso. pose proof (In_alookup k l' _ (apop_nodup k _ Hnd) Hin) as E.
      rewrite alookup_apop_eq in E by exact Hnd. discriminate.
    + apply (Hne k' l' (apop_In k _ _ Hin)).
      rewrite elem_of_cons. intros [H|H]; [congruence|contradiction].
Qed.

Lemma visit_step nested ok r0 k ks r saved :
  (forall r, NoDup (map fst (handlers r)) -> n_rel r (fst (nested r))) ->
  visit_j r0 (k :: ks) r -> visit_j r0 ks (fst (reg_visit nested ok (r, saved) k)).
Proof.
  intros Hn Hj.
  assert (Hnd : NoDup (map fst (handlers r))) by apply Hj.
  unfold reg_visit.
  destruct (alookup k (handlers r)) as [[|h l]|] eqn:E;
    [apply visit_pop; auto| |apply visit_pop; auto].
  destruct (dm_of k) as [dm|] eqn:Hdm; [|apply (visit_keep r0 k ks r r h l Hj E (n_rel_refl r Hnd))].
  destruct (decide (dm ∈ enabled_domains r)); [apply (visit_keep r0 k ks r r h l Hj E (n_rel_refl r Hnd))|].
  destruct (decide (dm ∈ always_on)) as [|Hao]; [apply (visit_keep r0 k ks r r h l Hj E (n_rel_refl r Hnd))|].
  assert (Hneed : needed (handlers r) dm)
    by (apply (needed_current _ k (h :: l)); [exact E|discriminate|exact Hdm]).
  specialize (Hn (set_enabled (enabled_domains r ++ [dm])%list r) Hnd).
  destruct (nested _) as [r2 [e|]]; cbn [fst] in Hn |- *.
  - apply (visit_keep r0 k ks r _ h l Hj E). exact Hn.
  - destruct (ok dm); apply (visit_keep r0 k ks r _ h l Hj E); apply n_rel_send; auto.
Qed.

Lemma fold_visit_j nested ok r0 :
  (forall r, NoDup (map fst (handlers r)) -> n_rel r (fst (nested r))) ->
  forall ks r saved, visit_j r0 ks r ->
  visit_j r0 [] (fst (fold_left (reg_visit nested ok) ks (r, saved))).
Proof.
  intros Hn ks. induction ks as [|k ks IH]; intros r saved Hj; [exact Hj|].
  cbn [fold_left]. rewrite (surjective_pairing (reg_visit _ _ _ _)).
  apply IH. apply visit_step; auto.
Qed.

Lemma register_handlers_sub ok (f : nat) :
  forall r, NoDup (map fst (handlers r)) ->
  n_rel r (fst (register_handlers f ok r)) /\
  (f <> 0 -> forall k l, In (k, l) (handlers (fst (register_handlers f ok r))) -> l <> []).
Proof.
  induction f as [|f IH]; intros r Hnd.
  - split; [apply n_rel_refl, Hnd|]. intros H; contradiction.
  - cbn [register_handlers].
    assert (H0 : visit_j r (map fst (handlers r)) r).
    { split; [apply n_rel_refl, Hnd|]. intros k l Hin Hk. exfalso. apply Hk.
      apply list_elem_of_In, in_map_iff. exists (k, l). auto. }
    pose proof (fold_visit_j (register_handlers f ok) ok r (fun r1 H => proj1 (IH r1 H))
                  _ r (enabled_domains r) H0) as Hj.
    destruct (fold_left _ _ _) as [r' saved]. cbn [fst] in Hj.
    destruct (sweep saved (enabled_domains r')) as [en e]. cbn [fst].
    destruct Hj as [Hj Hne]. split; [exact Hj|].
    intros _ k l Hin. apply (Hne k l Hin), not_elem_of_nil.
Qed.

Lemma occ_prefix (d : string) (l ext : list string) : occ d l <= occ d (l ++ ext)%list.
Proof. rewrite occ_app. lia. Qed.

Section Tried.
Variable ok : string -> bool.
Variable nested : registry -> registry * option exn.
Variable f : nat.
Hypothesis Hnest : forall r, NoDup (map fst (handlers r)) -> NoDup (enabled_domains r) ->
  unenabled r < f -> reg_post ok r (fst (nested r)) (snd (nested r)).

Lemma reg_visit_tried r0 k ks r saved new :
  consistent r0 -> unenabled r0 <= f ->
  loop_inv ok r0 (k :: ks) r saved new -> tried_j r0 (k :: ks) r ->
  tried_j r0 ks (fst (reg_visit nested ok (r, saved) k)).
Proof.
  intros Hc Hf Hi Ht.
  assert (Hhs := li_hs _ _ _ _ _ _ Hi).
  assert (Hsent := li_sent _ _ _ _ _ _ Hi).
  (* the step only appends to [enable_sent], and sends [dm] for a
     category of [dm] it visits *)
  assert (Hstep : exists ext, enable_sent (fst (reg_visit nested ok (r, saved) k)) =
                              (enable_sent r ++ ext)%list /\
            forall d l, In (k, l) (handlers r0) -> l <> [] -> dm_of k = Some d ->
              d ∉ enabled_domains r0 -> d ∉ always_on ->
              occ d (enable_sent r0) < occ d (enable_sent (fst (reg_visit nested ok (r, saved) k)))).
  { unfold reg_visit.
    destruct (alookup k (handlers r)) as [[|h t]|] eqn:Hl.
    - exists []. rewrite app_nil_r. split; [reflexivity|].
      intros d l Hin Hl0. rewrite (in_current _ _ _ _ Hhs Hin Hl0) in Hl.
      injection Hl as ->. contradiction.
    - destruct (dm_of k) as [dm|] eqn:Hd; [|exists []; rewrite app_nil_r; split; [reflexivity|];
        intros d l _ _ Hdk; discriminate].
      destruct (decide (dm ∈ enabled_domains r)) as [Hin|Hnin].
      + exists []. rewrite app_nil_r. split; [reflexivity|].
        intros d l Hin0 Hl0 Hdk Hd0 Hao. injection Hdk as <-.
        assert (Hn : needed (handlers r0) dm) by (exists k, l; auto).
        destruct (ok dm) eqn:Ho.
        * destruct (li_once _ _ _ _ _ _ Hi Hc dm Hn Hd0 Hao Ho) as [[_ Hocc]|[Hx _]];
            [|contradiction].
          cbn [fst]. rewrite Hsent, occ_app, Hocc. lia.
        * exfalso. exact (li_failed _ _ _ _ _ _ Hi Hc dm Ho Hd0 Hin).
      + destruct (decide (dm ∈ always_on)) as [Hao|Hao].
        * exists []. rewrite app_nil_r. split; [reflexivity|].
          intros d l _ _ Hdk _ Hao'. injection Hdk as <-. contradiction.
        * set (r1 := set_enabled (enabled_domains r ++ [dm])%list r).
          assert (Hcr1 : consistent r1).
          { intros x Hx. cbn in Hx. apply elem_of_app in Hx as [Hx|Hx].
            - apply (needed_rel _ _ _ Hhs).
              destruct (li_same _ _ _ _ _ _ Hi) as [Heq|Hall];
                [rewrite Heq in Hx; apply Hc, Hx|apply Hall, Hx].
            - apply list_elem_of_singleton in Hx as ->.
              exact (needed_current _ _ _ _ Hl ltac:(discriminate) Hd). }
          assert (Hpost : reg_post ok r1 (fst (nested r1)) (snd (nested r1))).
          { apply Hnest.
            - apply Hhs.
            - cbn. apply NoDup_app. split; [apply (li_nodup _ _ _ _ _ _ Hi)|].
              split; [|apply NoDup_singleton].
              intros x Hx Hx'. apply list_elem_of_singleton in Hx' as ->. contradiction.
            - eapply Nat.lt_le_trans;
                [apply (unenabled_append r k (h :: t) dm Hl ltac:(discriminate) Hd Hnin Hao)|].
              eapply Nat.le_trans; [apply (unenabled_mono _ _ _ _ _ _ Hi)|exact Hf]. }
          destruct (nested r1) as [r2 e2] eqn:Hn. cbn [fst snd] in Hpost.
          destruct Hpost as (_ & _ & _ & _ & new2 & P5 & _ & P7).
          destruct (P7 Hcr1) as (He2 & _ & _). subst e2.
          assert (Hs2 : enable_sent r2 = (enable_sent r ++ new2)%list) by exact P5.
          assert (Hocc : occ dm (enable_sent r0) <
                         occ dm (enable_sent r2 ++ [dm])%list).
          { rewrite Hs2, Hsent, <- app_assoc, !occ_app, occ_single, String.eqb_refl. lia. }
          destruct (ok dm); cbn [fst enable_sent set_sent set_enabled];
            (exists (new2 ++ [dm])%list; split; [rewrite Hs2, app_assoc; reflexivity|]);
            intros d l _ _ Hdk _ _; injection Hdk as <-; exact Hocc.
    - exists []. rewrite app_nil_r. split; [reflexivity|].
      intros d l Hin Hl0. rewrite (in_current _ _ _ _ Hhs Hin Hl0) in Hl. discriminate. }
  destruct Hstep as (ext & Hext & Hk).
  intros d Hn Hd0 Hao.
  destruct (Ht d Hn Hd0 Hao) as [Hlt|(k' & l' & Hk' & Hin' & Hl' & Hdk')].
  - left. rewrite Hext. pose proof (occ_prefix d (enable_sent r) ext). lia.
  - apply elem_of_cons in Hk' as [->|Hk'].
    + left. exact (Hk d l' Hin' Hl' Hdk' Hd0 Hao).
    + right. exists k', l'. auto.
Qed.
End Tried.

Lemma fold_visit_tried ok f r0 :
  (forall r, NoDup (map fst (handlers r)) -> NoDup (enabled_domains r) ->
     unenabled r < f ->
     reg_post ok r (fst (register_handlers f ok r)) (snd (register_handlers f ok r))) ->
  consistent r0 -> unenabled r0 <= f ->
  forall ks r saved new, loop_inv ok r0 ks r saved new -> tried_j r0 ks r ->
  tried_j r0 [] (fst (fold_left (reg_visit (register_handlers f ok) ok) ks (r, saved))).
Proof.
  intros Hnest Hc Hf ks. induction ks as [|k ks IH]; intros r saved new Hi Ht; [exact Ht|].
  destruct (reg_visit_inv ok _ f Hnest r0 k ks r saved new Hf Hi) as [new' Hi'].
  pose proof (reg_visit_tried ok _ f Hnest r0 k ks r saved new Hc Hf Hi Ht) as Ht'.
  cbn [fold_left]. rewrite (surjective_pairing (reg_visit _ _ _ _)).
  exact (IH _ _ _ Hi' Ht').
Qed.

Lemma register_handlers_tried ok (f : nat) r :
  NoDup (map fst (handlers r)) -> NoDup (enabled_domains r) -> unenabled r < f ->
  consistent r ->
  forall d, needed (handlers r) d -> d ∉ enabled_domains r -> d ∉ always_on ->
    occ d (enable_sent r) < occ d (enable_sent (fst (register_handlers f ok r))).
Proof.
  intros Hk He Hf Hc. destruct f as [|f]; [lia|]. cbn [register_handlers].
  assert (Ht0 : tried_j r (map fst (handlers r)) r).
  { intros d (k & l & Hin & Hl & Hdk) _ _. right. exists k, l.
    split; [|auto]. apply list_elem_of_In, in_map_iff. exists (k, l). auto. }
  pose proof (fold_visit_tried ok f r (register_handlers_post ok f) Hc ltac:(lia) _ r
                (enabled_domains r) [] (loop_inv_init ok r Hk He) Ht0) as Ht.
  destruct (fold_left _ _ _) as [r' saved]. cbn [fst] in Ht.
  destruct (sweep saved (enabled_domains r')) as [en e]. cbn [fst enable_sent set_enabled].
  intros d Hn Hd Hao. destruct (Ht d Hn Hd Hao) as [Hlt|Hah]; [exact Hlt|].
  destruct (key_ahead_nil _ _ Hah).
Qed.

Lemma occ_not_elem (d : string) (l : list string) : d ∉ l -> occ d l = 0.
Proof.
  unfold occ. induction l as [|x l IH]; intros H; [reflexivity|].
  cbn. destruct (String.eqb d x) eqn:E.
  - apply String.eqb_eq in E as ->. exfalso. apply H, elem_of_cons. auto.
  - apply IH. intros Hx. apply H, elem_of_cons. auto.
Qed.

(** C4 (as corrected): one reconciliation, from a registry with distinct
    event keys and no repeated enabled domain, records the enable commands
    it sends as [new].  If every enabled domain still has a handler, a
    domain that has handlers, is not enabled and is neither target nor
    storage gets at least one enable, and exactly one (however many of its
    event types have handlers) when it succeeds; it then ends enabled.  A
    domain that is enabled and still has a handler gets no enable and stays
    enabled.  A domain with no non-empty handler list left is not enabled
    afterwards.  Target and storage never get an enable.  A domain whose
    enable fails is not enabled afterwards, and the next reconciliation
    sends its enable again. *)
Theorem domain_enable_once (ok : string -> bool) (r : registry) :
  NoDup (map fst (handlers r)) -> NoDup (enabled_domains r) ->
  let r' := fst (reconcile ok r) in
  exists new, enable_sent r' = (enable_sent r ++ new)%list /\
    (consistent r -> forall d, needed (handlers r) d -> d ∉ enabled_domains r ->
       d ∉ always_on -> ok d = true -> d ∈ enabled_domains r' /\ occ d new = 1) /\
    (consistent r -> forall d, needed (handlers r) d -> d ∉ enabled_domains r ->
       d ∉ always_on -> 1 <= occ d new) /\
    (forall d, d ∈ enabled_domains r -> needed (handlers r) d ->
       d ∈ enabled_domains r' /\ occ d new = 0) /\
    (forall d, ~ needed (handlers r) d -> d ∉ enabled_domains r') /\
    (forall d, d ∈ always_on -> occ d new = 0) /\
    (consistent r -> forall d, ok d = false -> needed (handlers r) d ->
       d ∉ enabled_domains r -> d ∉ always_on ->
       d ∉ enabled_domains r' /\
       (forall ok', occ d (enable_sent r') < occ d (enable_sent (fst (reconcile ok' r'))))).
Proof.
  intros Hk He r'.
  destruct (reconcile_post ok r Hk He) as (P1 & P2 & P3 & P4 & new & P5 & P6 & P7).
  exists new. split; [exact P5|]. split; [|split; [|split; [|split; [|split]]]].
  - intros Hc. destruct (P7 Hc) as (_ & Pa & _). exact Pa.
  - intros Hc d Hn Hd Hao.
    assert (Ht : occ d (enable_sent r) < occ d (enable_sent (fst (reconcile ok r)))).
    { apply (register_handlers_tried ok (S (length (handlers r))) r Hk He); auto.
      unfold unenabled.
      pose proof (filter_length_le' (pending_entry (enabled_domains r)) (handlers r)). lia. }
    rewrite P5, occ_app in Ht. lia.
  - intros d Hd Hn. split; [apply P3; auto|apply P6; auto].
  - intros d Hn Hd. exact (Hn (P4 d Hd)).
  - destruct (register_handlers_sub ok (S (length (handlers r))) r Hk)
      as ((_ & _ & new' & Hs & Hnew) & _).
    change (register_handlers (S (length (handlers r))) ok r) with (reconcile ok r) in Hs.
    rewrite P5 in Hs.
    apply app_inv_head in Hs. subst new'.
    intros d Hao. apply occ_not_elem. intros Hd. exact (proj2 (Hnew d Hd) Hao).
  - intros Hc d Hok Hn Hd Hao.
    destruct (P7 Hc) as (_ & _ & Pf).
    assert (Hd' : d ∉ enabled_domains r') by exact (Pf d Hok Hd).
    split; [exact Hd'|]. intros ok'.
    assert (Hk' : NoDup (map fst (handlers r'))) by apply P1.
    assert (Hn' : forall x, needed (handlers r') x <-> needed (handlers r) x)
      by (intros x; apply needed_rel, P1).
    assert (Hc' : consistent r') by (intros x Hx; apply Hn', P4, Hx).
    apply (register_handlers_tried ok' _ r' Hk' P2); [|exact Hc'|apply Hn', Hn|exact Hd'|exact Hao].
    unfold unenabled.
    pose proof (filter_length_le' (pending_entry (enabled_domains r')) (handlers r')). lia.
Qed.

Lemma domain_enable_once_witness :
  "page" ∈ enabled_domains (fst (reconcile (fun _ => true) two_page_registry)) /\
  "page" ∉ enabled_domains (fst (reconcile page_fails two_page_registry)) /\
  occ "page" (enable_sent (fst (reconcile page_fails two_page_registry))) <
  occ "page" (enable_sent (fst (reconcile page_fails
                                   (fst (reconcile page_fails two_page_registry))))).
Proof.
  assert (Hk : NoDup (map fst (handlers two_page_registry))).
  { apply (bool_decide_unpack _). vm_compute. reflexivity. }
  assert (He : NoDup (enabled_domains two_page_registry)) by constructor.
  assert (Hc : consistent two_page_registry).
  { intros d Hd. apply not_elem_of_nil in Hd. contradiction. }
  assert (Hn : needed (handlers two_page_registry) "page").
  { exists (page_evt "FrameNavigated"), [plain_handler 1].
    split; [left; reflexivity|split; [discriminate|reflexivity]]. }
  assert (Hao : "page" ∉ always_on).
  { apply (bool_decide_unpack _). vm_compute. reflexivity. }
  split.
  - destruct (domain_enable_once (fun _ => true) two_page_registry Hk He)
      as (new & _ & Ha & _ & _ & _ & _ & _).
    apply (Ha Hc "page" Hn (not_elem_of_nil _) Hao). reflexivity.
  - destruct (domain_enable_once page_fails two_page_registry Hk He)
      as (new & _ & _ & _ & _ & _ & _ & Hf).
    destruct (Hf Hc "page" eq_refl Hn (not_elem_of_nil _) Hao) as [Hgone Hretry].
    split; [exact Hgone|apply Hretry].
Defined.

(** C4 counterexample: handlers for a [target] event make no enable
    command be sent, since target and storage count as enabled by default. *)
Lemma target_handler_sends_no_enable :
  enable_sent (fst (reconcile (fun _ => true) target_registry)) = [] /\
  ("target" ∉ enabled_domains (fst (reconcile (fun _ => true) target_registry))).
Proof. vm_compute. split; [reflexivity|apply not_elem_of_nil]. Qed.

Lemma filter_all_true {A} (P : A -> bool) (l : list A) :
  (forall x, In x l -> P x = true) -> List.filter P l = l.
Proof.
  induction l as [|x l IH]; cbn; intros H; [reflexivity|].
  rewrite (H x (or_introl eq_refl)). f_equal. apply IH. intros y Hy. apply H. auto.
Qed.

(** X13: after [_register_handlers] the handler registry is exactly the
    old one with the empty entries removed, in the same order. *)
Theorem reconcile_drops_empty_entries (ok : string -> bool) (r : registry) :
  NoDup (map fst (handlers r)) ->
  handlers (fst (reconcile ok r)) = List.filter nonemptyb (handlers r).
Proof.
  intros Hnd. unfold reconcile.
  destruct (register_handlers_sub ok (S (length (handlers r))) r Hnd)
    as (([Hf _] & _) & Hne).
  rewrite <- Hf. symmetry. apply filter_all_true.
  intros [k l] Hin. apply nonemptyb_true. exact (Hne ltac:(discriminate) k l Hin).
Qed.

Lemma reconcile_drops_empty_entries_witness :
  handlers (fst (reconcile (fun _ => true)
     {| handlers := [(page_evt "FrameNavigated", []); (page_evt "LoadEventFired", [plain_handler 2])];
        enabled_domains := ["page"]; enable_sent := ["page"] |}))
  = [(page_evt "LoadEventFired", [plain_handler 2])].
Proof.
  apply (reconcile_drops_empty_entries (fun _ => true)).
  apply (bool_decide_unpack _). vm_compute. reflexivity.
Defined.

Lemma occ_elem (d : string) (l : list string) : d ∈ l -> occ d l <> 0.
Proof.
  unfold occ. induction l as [|x l IH]; intros H; [apply not_elem_of_nil in H; contradiction|].
  cbn. apply elem_of_cons in H as [->|H].
  - rewrite String.eqb_refl. cbn. lia.
  - destruct (String.eqb d x); cbn; [lia|]. exact (IH H).
Qed.

(** X14: [_register_handlers] only appends enable commands, and each one
    is for a domain that has a handler, is not on by default and was not
    enabled before. *)
Theorem reconcile_enables_only_needed (ok : string -> bool) (r : registry) :
  NoDup (map fst (handlers r)) -> NoDup (enabled_domains r) ->
  exists new, enable_sent (fst (reconcile ok r)) = (enable_sent r ++ new)%list /\
    forall d, d ∈ new ->
      needed (handlers r) d /\ (d ∉ always_on) /\ d ∉ enabled_domains r.
Proof.
  intros Hk He.
  destruct (register_handlers_sub ok (S (length (handlers r))) r Hk)
    as ((_ & _ & new & Hs & Hd) & _).
  destruct (reconcile_post ok r Hk He) as (_ & _ & _ & _ & new' & Hs' & Hq & _).
  fold (reconcile ok r) in Hs.
  rewrite Hs in Hs'. apply app_inv_head in Hs'. subst new'.
  exists new. split; [exact Hs|]. intros d Hin.
  destruct (Hd d Hin) as [Hn Ha]. split; [exact Hn|]. split; [exact Ha|].
  intros Hen. exact (occ_elem d new Hin (Hq d Hen Hn)).
Qed.

Lemma reconcile_enables_only_needed_witness :
  enable_sent (fst (reconcile (fun _ => true) two_page_registry)) = ["page"].
Proof.
  assert (Hk : NoDup (map fst (handlers two_page_registry))).
  { apply (bool_decide_unpack _). vm_compute. reflexivity. }
  destruct (reconcile_enables_only_needed (fun _ => true) two_page_registry Hk
              ltac:(constructor)) as (new & Hs & _).
  rewrite Hs. vm_compute in Hs. vm_compute. inversion Hs. reflexivity.
Defined.

(** X15: [aclose] then [aopen] leaves an open connection with an empty
    event queue. If the listener was running, the reopening raises
    nothing, and every domain that has a handler, is not on by default and
    whose enable succeeds is enabled again, with exactly one new enable.
    If it was not, [enabled_domains] was never cleared, and no
    enable is re-sent for a needed domain that was already enabled. *)
Theorem reopen_after_aclose (running listener_running : bool) (ok : string -> bool) (c : conn) :
  c_open c = true ->
  NoDup (map fst (handlers (c_reg c))) -> NoDup (enabled_domains (c_reg c)) ->
  let '(c', e) := aopen listener_running ok (aclose running c) in
  c_open c' = true /\ c_evq c' = [] /\
  exists new, enable_sent (c_reg c') = (enable_sent (c_reg c) ++ new)%list /\
  (running = true -> e = None /\
     forall d, needed (handlers (c_reg c)) d -> d ∉ always_on -> ok d = true ->
       d ∈ enabled_domains (c_reg c') /\ occ d new = 1) /\
  (running = false ->
     forall d, d ∈ enabled_domains (c_reg c) -> needed (handlers (c_reg c)) d ->
       d ∈ enabled_domains (c_reg c') /\ occ d new = 0).
Proof.
  intros Ho Hk He. unfold aclose. rewrite Ho.
  destruct running.
  - unfold aopen. cbn [c_open set_open].
    set (r0 := set_enabled [] (c_reg c)).
    assert (Hk0 : NoDup (map fst (handlers r0))) by exact Hk.
    destruct (reconcile_post ok r0 Hk0 ltac:(constructor))
      as (_ & _ & _ & _ & new & Hs & _ & P7).
    destruct (reconcile ok _) as [reg e] eqn:Er.
    change (new_listener (set_open true (set_open false (set_reg r0 c)))) with
      (new_listener (set_open true (set_open false (set_reg r0 c)))).
    cbn [fst snd] in *. cbn.
    split; [reflexivity|]. split; [reflexivity|].
    exists new. split; [exact Hs|]. split; [|discriminate].
    intros _. destruct (P7 ltac:(intros d Hd; apply not_elem_of_nil in Hd; contradiction))
      as (He0 & Pa & _).
    split; [exact He0|]. intros d Hn Hao Hok. apply (Pa d Hn (not_elem_of_nil d) Hao Hok).
  - unfold aopen. cbn [c_open set_open].
    destruct (reconcile_post ok (c_reg c) Hk He)
      as (_ & _ & P3 & _ & new & Hs & P6 & _).
    destruct (reconcile ok _) as [reg e] eqn:Er.
    cbn [fst snd] in *. cbn.
    split; [reflexivity|]. split; [reflexivity|].
    exists new. split; [exact Hs|]. split; [discriminate|].
    intros _ d Hd Hn. split; [apply P3; auto|apply P6; auto].
Qed.

Lemma reopen_after_aclose_witness :
  let c := conn_open {| handlers := handlers two_page_registry;
                        enabled_domains := ["page"]; enable_sent := ["page"] |} in
  "page" ∈ enabled_domains (c_reg (fst (aopen true (fun _ => true) (aclose true c)))).
Proof.
  intros c.
  pose proof (reopen_after_aclose true true (fun _ => true) c eq_refl) as H.
  assert (Hk : NoDup (map fst (handlers (c_reg c)))).
  { apply (bool_decide_unpack _). vm_compute. reflexivity. }
  assert (He : NoDup (enabled_domains (c_reg c))) by (apply NoDup_singleton).
  specialize (H Hk He).
  destruct (aopen true (fun _ => true) (aclose true c)) as [c' e]. cbn [fst].
  destruct H as (_ & _ & new & _ & Hrun & _).
  destruct (Hrun eq_refl) as [_ Ha].
  apply (Ha "page").
  - exists (page_evt "FrameNavigated"), [plain_handler 1].
    split; [left; reflexivity|split; [discriminate|reflexivity]].
  - apply (bool_decide_unpack _). vm_compute. reflexivity.
  - reflexivity.
Defined.

(* ---- reconciliation with nothing to enable ---- *)

Lemma filter_length_pos {A} (P : A -> bool) (l : list A) (x : A) :
  In x l -> P x = true -> length (List.filter P l) <> 0.
Proof.
  induction l as [|y l IH]; cbn; [tauto|]. intros [->|Hin] Hx.
  - rewrite Hx. cbn. lia.
  - destruct (P y); cbn; [lia|]. exact (IH Hin Hx).
Qed.

Lemma seen_dom_app hs0 pre k d :
  seen_dom hs0 (pre ++ [k])%list d <->
  seen_dom hs0 pre d \/ exists l, In (k, l) hs0 /\ l <> [] /\ dm_of k = Some d.
Proof.
  unfold seen_dom. split.
  - intros (k' & l & Hk & Hin & Hl & Hd). apply elem_of_app in Hk as [Hk|Hk].
    + left. exists k', l. auto.
    + apply list_elem_of_singleton in Hk. subst k'. right. exists l. auto.
  - intros [(k' & l & Hk & H)|(l & H)].
    + exists k', l. split; [apply elem_of_app; auto|exact H].
    + exists k, l. split; [apply elem_of_app; right; apply list_elem_of_singleton; reflexivity|exact H].
Qed.

Lemma quiet_step nested ok r0 pre k r saved :
  unenabled r0 = 0 -> quiet_inv r0 pre r saved ->
  quiet_inv r0 (pre ++ [k])%list (fst (reg_visit nested ok (r, saved) k))
                                 (snd (reg_visit nested ok (r, saved) k)).
Proof.
  intros H0 [Hhs Hen Hsent Hnd Hsv].
  assert (Hndk : NoDup (map fst (handlers r))) by apply Hhs.
  assert (Hnone : (alookup k (handlers r) = None \/ alookup k (handlers r) = Some []) ->
                  forall d, seen_dom (handlers r0) (pre ++ [k])%list d <-> seen_dom (handlers r0) pre d).
  { intros Hk d. rewrite seen_dom_app. split; [|auto].
    intros [H|(l & Hin & Hl & _)]; [exact H|].
    rewrite (in_current _ _ k l Hhs Hin Hl) in Hk. destruct Hk as [Hk|Hk]; [discriminate|].
    injection Hk as ->. contradiction. }
  unfold reg_visit.
  destruct (alookup k (handlers r)) as [[|h l]|] eqn:E.
  - split; cbn; auto.
    + apply (hs_rel_trans _ _ _ (apop_rel k _ Hndk ltac:(auto)) Hhs).
    + intros d. rewrite Hsv, (Hnone ltac:(auto)). reflexivity.
  - assert (Hin0 : In (k, h :: l) (handlers r0)).
    { apply alookup_In in E. destruct Hhs as [Hf _].
      assert (H : In (k, h :: l) (List.filter nonemptyb (handlers r)))
        by (apply In_nonempty_filter; split; [exact E|discriminate]).
      rewrite Hf in H. apply In_nonempty_filter in H. tauto. }
    assert (Hseen : forall d, seen_dom (handlers r0) (pre ++ [k])%list d <->
                      seen_dom (handlers r0) pre d \/ dm_of k = Some d).
    { intros d. rewrite seen_dom_app. split.
      - intros [H|(l' & _ & _ & Hd)]; auto.
      - intros [H|Hd]; [auto|]. right. exists (h :: l). split; [exact Hin0|split; [discriminate|exact Hd]]. }
    destruct (dm_of k) as [dm|] eqn:Hdm.
    + destruct (decide (dm ∈ enabled_domains r)) as [Hin|Hnin].
      * split; cbn; auto.
        -- destruct (decide (dm ∈ saved)); [apply remove_first_nodup, Hnd|exact Hnd].
        -- intros d. rewrite Hseen.
           destruct (decide (dm ∈ saved)) as [Hs|Hs].
           ++ destruct (decide (d = dm)) as [->|Hne].
              ** split; [intros H; exfalso; exact (remove_first_gone dm saved Hnd H)|].
                 intros [_ H]. exfalso. apply H. right. reflexivity.
              ** rewrite remove_first_ne by exact Hne. rewrite Hsv.
                 split; [intros [A B]; split; [exact A|intros [C|C]; [exact (B C)|congruence]]|].
                 intros [A B]. split; [exact A|intros C; apply B; left; exact C].
           ++ rewrite Hsv. split.
              ** intros [A B]. split; [exact A|]. intros [C|C]; [exact (B C)|].
                 injection C as <-. apply Hs, Hsv. split; [exact A|exact B].
              ** intros [A B]. split; [exact A|intros C; apply B; left; exact C].
      * destruct (decide (dm ∈ always_on)) as [Hao|Hao].
        -- split; cbn; auto. intros d. rewrite Hseen, Hsv.
           split; [intros [A B]; split; [exact A|intros [C|C]; [exact (B C)|]]|].
           ++ injection C as <-. apply Hnin. rewrite Hen. exact A.
           ++ intros [A B]. split; [exact A|intros C; apply B; left; exact C].
        -- exfalso. unfold unenabled in H0.
           apply (filter_length_pos (pending_entry (enabled_domains r0)) _ (k, h :: l) Hin0); [|exact H0].
           unfold pending_entry. cbn [fst]. rewrite Hdm. cbn.
           rewrite <- Hen. rewrite !bool_decide_false by assumption. reflexivity.
    + split; cbn; auto. intros d. rewrite Hseen, Hsv.
      split; [intros [A B]; split; [exact A|intros [C|C]; [exact (B C)|discriminate]]|].
      intros [A B]. split; [exact A|intros C; apply B; left; exact C].
  - split; cbn; auto.
    + apply (hs_rel_trans _ _ _ (apop_rel k _ Hndk ltac:(auto)) Hhs).
    + intros d. rewrite Hsv, (Hnone ltac:(auto)). reflexivity.
Qed.

Lemma quiet_fold nested ok r0 :
  unenabled r0 = 0 ->
  forall ks pre r saved, quiet_inv r0 pre r saved ->
  quiet_inv r0 (pre ++ ks)%list (fst (fold_left (reg_visit nested ok) ks (r, saved)))
                                (snd (fold_left (reg_visit nested ok) ks (r, saved))).
Proof.
  intros H0 ks. induction ks as [|k ks IH]; intros pre r saved Hq.
  - rewrite app_nil_r. exact Hq.
  - cbn [fold_left]. rewrite (surjective_pairing (reg_visit _ _ _ _)).
    replace (pre ++ k :: ks)%list with ((pre ++ [k]) ++ ks)%list
      by (rewrite <- app_assoc; reflexivity).
    apply IH. apply quiet_step; auto.
Qed.

Lemma needed_or_not (hs : list (evkey * list handler)) (d : string) :
  needed hs d \/ ~ needed hs d.
Proof.
  induction hs as [|[k l] hs IH].
  - right. intros (k & l & Hin & _). exact Hin.
  - destruct (decide (l <> [] /\ dm_of k = Some d)) as [[Hl Hd]|Hn].
    + left. exists k, l. split; [left; reflexivity|auto].
    + destruct IH as [(k' & l' & Hin & H)|IH].
      * left. exists k', l'. split; [right; exact Hin|exact H].
      * right. intros (k' & l' & [Heq|Hin] & Hl & Hd).
        -- injection Heq as -> ->. tauto.
        -- apply IH. exists k', l'. auto.
Qed.

(** X16: when every domain that has a handler is already enabled or on by
    default, [_register_handlers] raises nothing and sends no enable; it
    only drops the enabled domains that no handler needs. *)
Theorem stale_domains_dropped (ok : string -> bool) (r : registry) :
  NoDup (map fst (handlers r)) -> NoDup (enabled_domains r) -> unenabled r = 0 ->
  let '(r', e) := reconcile ok r in
  e = None /\ enable_sent r' = enable_sent r /\
  forall d, d ∈ enabled_domains r' <-> d ∈ enabled_domains r /\ needed (handlers r) d.
Proof.
  intros Hk He H0. unfold reconcile. cbn [register_handlers].
  assert (Hq0 : quiet_inv r [] r (enabled_domains r)).
  { split; auto; [apply hs_rel_refl, Hk|]. intros d. split.
    - intros Hd. split; [exact Hd|]. intros (k' & l & Hk' & _). apply not_elem_of_nil in Hk'. exact Hk'.
    - intros [A _]. exact A. }
  pose proof (quiet_fold (register_handlers (length (handlers r)) ok) ok r H0
                (map fst (handlers r)) [] r (enabled_domains r) Hq0) as Hq.
  destruct (fold_left _ _ _) as [r' saved]. cbn [fst snd app] in Hq.
  destruct Hq as [_ Hen Hsent Hnd Hsv].
  assert (Hseen : forall d, seen_dom (handlers r) (map fst (handlers r)) d <-> needed (handlers r) d).
  { intros d. split.
    - intros (k & l & _ & Hin & Hl & Hd). exists k, l. auto.
    - intros (k & l & Hin & Hl & Hd). exists k, l. split; [|auto].
      apply list_elem_of_In, in_map_iff. exists (k, l). auto. }
  assert (Hsub : forall x, x ∈ saved -> x ∈ enabled_domains r') by (intros x Hx; rewrite Hen; apply Hsv, Hx).
  rewrite <- Hen in He.
  destruct (sweep_ok saved (enabled_domains r') Hnd He Hsub) as [Hok Hout].
  destruct (sweep saved (enabled_domains r')) as [en e] eqn:Es. cbn [fst snd] in *.
  split; [exact Hok|]. split; [exact Hsent|]. intros d. cbn [enabled_domains set_enabled].
  split.
  - intros Hd. pose proof (Hout d Hd) as Hns.
    assert (Hd' : d ∈ enabled_domains r') by (apply (sweep_sub saved); rewrite Es; exact Hd).
    rewrite Hen in Hd'. split; [exact Hd'|].
    destruct (needed_or_not (handlers r) d) as [S|S]; [exact S|].
    exfalso. apply Hns, Hsv. split; [exact Hd'|]. rewrite Hseen. exact S.
  - intros [Hd Hn]. pose proof (sweep_keep saved (enabled_domains r') d) as G.
    rewrite Es in G. apply G.
    + rewrite Hsv. intros [_ B]. apply B, Hseen, Hn.
    + rewrite Hen. exact Hd.
Qed.

Lemma stale_domains_dropped_witness :
  let r := {| handlers := [(page_evt "FrameNavigated", [plain_handler 1])];
              enabled_domains := ["runtime"; "page"]; enable_sent := ["runtime"; "page"] |} in
  snd (reconcile (fun _ => true) r) = None /\
  ("runtime" ∉ enabled_domains (fst (reconcile (fun _ => true) r))).
Proof.
  intros r.
  assert (Hk : NoDup (map fst (handlers r))).
  { apply (bool_decide_unpack _). vm_compute. reflexivity. }
  assert (He : NoDup (enabled_domains r)).
  { apply (bool_decide_unpack _). vm_compute. reflexivity. }
  pose proof (stale_domains_dropped (fun _ => true) r Hk He ltac:(vm_compute; reflexivity)) as H.
  destruct (reconcile (fun _ => true) r) as [r' e]. cbn [fst snd].
  destruct H as (He' & _ & Hd). split; [exact He'|].
  rewrite Hd. intros [_ (k & l & [Heq|[]] & _ & Hdm)].
  injection Heq as <- _. discriminate.
Defined.

Lemma add_handler_members_cons m rest h hs :
  m_name m <> EmptyString ->
  add_handler_members (m :: rest) h hs =
  add_handler_members rest h (if member_taken m then add_handler (m_obj m) h hs else hs).
Proof.
  intros Hn. unfold member_taken. cbn [add_handler_members].
  destruct (py_isupper (m_name m)); cbn [negb andb]; [reflexivity|].
  destruct (m_name m) as [|a s]; [congruence|].
  destruct (ascii_upper a), (m_type_is_type m), (m_builtin m); reflexivity.
Qed.

Lemma handlers_of_add_handler k k' h hs :
  handlers_of k (add_handler k' h hs) =
  (handlers_of k hs ++ (if bool_decide (k' = k) then [h] else []))%list.
Proof.
  unfold add_handler. case_bool_decide as E.
  - subst. unfold handlers_of at 1. by rewrite alookup_aset_eq.
  - unfold handlers_of at 1. rewrite alookup_aset_ne by done.
    rewrite app_nil_r. reflexivity.
Qed.

(** X17: [add_handler] on a module appends the handler once for each
    accepted member: the name is not all-uppercase, starts with an
    uppercase letter, and the object is neither a plain class ([type(obj)
    is type]) nor a builtin. A key whose members are all plain classes or
    builtins gets nothing. *)
Lemma add_handler_module_registers ms h hs :
  (forall m, In m ms -> m_name m <> EmptyString) ->
  exists hs', add_handler_members ms h hs = Some hs' /\
    forall k, handlers_of k hs' = (handlers_of k hs ++ repeat h (taken_for k ms))%list /\
      ((forall m, In m ms -> m_obj m = k ->
          m_type_is_type m = true \/ m_builtin m = true) ->
       alookup k hs' = alookup k hs).
Proof.
  revert hs. induction ms as [|m rest IH]; intros hs Hn.
  - exists hs. split; [reflexivity|]. intros k. cbn. by rewrite app_nil_r.
  - rewrite add_handler_members_cons by (apply Hn; left; reflexivity).
    destruct (IH (if member_taken m then add_handler (m_obj m) h hs else hs))
      as [hs' [E Hk]]; [intros m' Hm'; apply Hn; right; exact Hm'|].
    exists hs'. split; [exact E|]. intros k. destruct (Hk k) as [H1 H2]. split.
    + rewrite H1. unfold taken_for. cbn [List.filter].
      destruct (member_taken m) eqn:Et; cbn [andb].
      * rewrite handlers_of_add_handler.
        case_bool_decide; cbn [List.length repeat];
          rewrite <- app_assoc; reflexivity.
      * reflexivity.
    + intros Hc. rewrite H2 by (intros m' Hm' Ek; apply Hc; [right; exact Hm'|exact Ek]).
      destruct (member_taken m) eqn:Et; [|reflexivity].
      unfold add_handler. rewrite alookup_aset_ne; [reflexivity|].
      intros Ek. destruct (Hc m (or_introl eq_refl) Ek) as [Hx|Hx];
        unfold member_taken in Et; rewrite Hx in Et;
        destruct (m_name m); cbn in Et; [discriminate| |discriminate|];
        repeat (rewrite ?andb_false_r in Et); try discriminate.
Qed.

Lemma add_handler_module_registers_witness :
  exists hs', add_handler_members network_members (plain_handler 1) [] = Some hs' /\
    alookup (EvType "network" "RequestWillBeSent") hs' = None /\
    handlers_of (EvOther "network.ResourceType") hs' = [plain_handler 1].
Proof.
  destruct (add_handler_module_registers network_members (plain_handler 1) [])
    as [hs' [E Hk]].
  - intros m Hm. cbn in Hm.
    destruct Hm as [<-|[<-|[<-|[<-|[]]]]]; discriminate.
  - exists hs'. split; [exact E|]. split.
    + destruct (Hk (EvType "network" "RequestWillBeSent")) as [_ H2].
      rewrite H2; [reflexivity|].
      intros m Hm Ek. cbn in Hm.
      destruct Hm as [<-|[<-|[<-|[<-|[]]]]]; cbn in Ek |- *;
        [left; reflexivity|discriminate..].
    + destruct (Hk (EvOther "network.ResourceType")) as [H1 _].
      rewrite H1. vm_compute. reflexivity.
Defined.
